(** * node-sctp, [lib/sockets.js]: the stream socket over an SCTP association

    A shallow embedding of class [Socket] (a [Duplex] stream bound to one
    endpoint and one association) and the properties of its connection
    establishment, data path and teardown.

    The socket's methods are written in a small monad that threads the store
    (the socket's fields and the listeners it has registered on its
    collaborators), records every outward call in a trace and carries
    JavaScript's exceptions.  The collaborators ([Endpoint], [Association],
    the [ip] package) and the language runtime's coercions are not part of
    the file under study: what they answer is read from an [Env]. *)

From Stdlib Require Import ZArith String List Lia.
From stdpp Require Import base option list gmap strings pretty.

Set Warnings "-register-all".
Local Open Scope Z_scope.

(** ** JavaScript values *)

(** The values the socket handles.  A number is an integer ([JNum]), a
    finite number that is not an integer ([JFrac], with its integral part,
    the number truncated toward zero: the code does nothing with a number
    that depends on the rest of it), [NaN] or an infinity.  [JFun] carries
    the identity of a function, [JError name message] is an [Error] object. *)
Inductive jsval : Type :=
| JUndefined
| JNull
| JBool (b : bool)
| JNum (z : Z)
| JFrac (integral : Z)
| JNaN
| JInfinity (negative : bool)
| JStr (s : string)
| JBuf (bytes : list Byte.byte)
| JFun (id : nat)
| JArr (items : list jsval)
| JObj (fields : gmap string jsval)
| JError (name : string) (message : string).

Definition typeof (v : jsval) : string :=
  match v with
  | JUndefined => "undefined"
  | JNull => "object"
  | JBool _ => "boolean"
  | JNum _ | JFrac _ | JNaN | JInfinity _ => "number"
  | JStr _ => "string"
  | JFun _ => "function"
  | JBuf _ | JArr _ | JObj _ | JError _ _ => "object"
  end.

(** Truthiness, as tested by [if (v)], [!v], [a || b] and [a && b]. *)
Definition truthy (v : jsval) : bool :=
  match v with
  | JUndefined | JNull | JNaN => false
  | JBool b => b
  | JNum z => negb (z =? 0)
  | JStr s => negb (String.eqb s "")
  | _ => true
  end.

(** [v.key] for the property names this file reads.  [None] is the
    [TypeError] of reading a property of [null] or [undefined]; a plain
    object answers from its own fields; on the other values none of the
    names read here is defined. *)
Definition get_prop (v : jsval) (key : string) : option jsval :=
  match v with
  | JUndefined | JNull => None
  | JObj fields => Some (default JUndefined (fields !! key))
  | _ => Some JUndefined
  end.

(** [v.hasOwnProperty(key)], with the same convention. *)
Definition hasOwnProperty (v : jsval) (key : string) : option bool :=
  match v with
  | JUndefined | JNull => None
  | JObj fields => Some (bool_decide (is_Some (fields !! key)))
  | _ => Some false
  end.

Definition Array_isArray (v : jsval) : bool :=
  match v with JArr _ => true | _ => false end.

(** The own enumerable properties [Object.assign] copies from a source. *)
Definition indexed (items : list jsval) : gmap string jsval :=
  list_to_map (imap (fun i v => (pretty i, v)) items).

Definition own_enumerable (v : jsval) : gmap string jsval :=
  match v with
  | JObj fields => fields
  | JArr items => indexed items
  | JStr s => indexed ((fun c => JStr (String c EmptyString)) <$> list_ascii_of_string s)
  | JBuf bytes => indexed ((fun b => JNum (Z.of_N (Byte.to_N b))) <$> bytes)
  | _ => ∅
  end.

(** [Object.assign(target, source)]: the source's properties win. *)
Definition Object_assign (target : gmap string jsval) (source : jsval)
  : gmap string jsval :=
  own_enumerable source ∪ target.

(** [ToString] on the primitive values whose text the model determines;
    the code applies it to [initOptions.localPort], a 32-bit integer or
    [undefined]. *)
Definition ToString (v : jsval) : string :=
  match v with
  | JUndefined => "undefined"
  | JNull => "null"
  | JBool true => "true"
  | JBool false => "false"
  | JNum z => pretty z
  | JNaN => "NaN"
  | JInfinity false => "Infinity"
  | JInfinity true => "-Infinity"
  | JStr s => s
  | _ => "[object]"
  end.

(** A number as an integer: truncated toward zero, with [NaN] and the
    infinities at 0. *)
Definition integral_part (v : jsval) : Z :=
  match v with
  | JNum z => z
  | JFrac integral => integral
  | _ => 0
  end.

(** The wrap-around of [ToInt32]: the representative of [z] modulo 2^32 in
    [-2^31, 2^31). *)
Definition wrap32 (z : Z) : Z := (z + 2 ^ 31) mod 2 ^ 32 - 2 ^ 31.

(** [a === b] when [a] is a number, respectively a string. *)
Definition num_strict_eq (a : Z) (b : jsval) : bool :=
  match b with JNum z => a =? z | _ => false end.

Definition str_strict_eq (a : string) (b : jsval) : bool :=
  match b with JStr s => String.eqb a s | _ => false end.

(** [buffer.length], for the values a receive can hand over. *)
Definition length_of (v : jsval) : jsval :=
  match v with
  | JBuf bytes => JNum (Z.of_nat (length bytes))
  | JStr s => JNum (Z.of_nat (String.length s))
  | JArr items => JNum (Z.of_nat (length items))
  | _ => JUndefined
  end.

(** ** The collaborators *)

Module Endpoint.

(** An endpoint object: its identity and the two fields the socket reads. *)
Record t : Type := Build {
  id : nat;
  localPort : jsval;
  localAddress : jsval
}.

End Endpoint.

Module Association.

(** An association object: its identity, the peer's port (a number) and the
    peer's address (a string). *)
Record t : Type := Build {
  id : nat;
  remotePort : Z;
  remoteAddress : string
}.

End Association.

(** What the world outside the file answers.  [ToIntegral] is the runtime's
    [ToNumber] on strings and objects, truncated to an integer (0 for NaN
    and the infinities); [isV4Format] is the [ip] package's test.
    [INITIALIZE] and [ASSOCIATE] answer with an object or with nothing;
    [RECEIVE] with a buffer or a falsy value.  [ABORT] either returns
    ([None]) or throws ([Some e]); the other operations return normally. *)
Record Env : Type := {
  ToIntegral : jsval -> Z;
  isV4Format : jsval -> bool;
  INITIALIZE : gmap string jsval -> option Endpoint.t;
  ASSOCIATE : Endpoint.t -> gmap string jsval -> option Association.t;
  RECEIVE : Association.t -> jsval -> jsval;
  ABORT : Association.t -> list jsval -> option jsval
}.

(** [~~v]: [ToInt32] of [v].  A number is truncated and wrapped, [NaN] and
    the infinities give 0; strings and objects go through the runtime's
    [ToNumber]. *)
Definition ToInt32 (env : Env) (v : jsval) : Z :=
  match v with
  | JUndefined | JNull | JNaN | JInfinity _ => 0
  | JBool b => if b then 1 else 0
  | JNum z => wrap32 z
  | JFrac integral => wrap32 integral
  | _ => wrap32 (ToIntegral env v)
  end.

(** ** The store *)

(** The fields of a [Socket] instance.  A field the constructor leaves
    unassigned holds [JUndefined]; [p2p] is only ever tested for truth and
    assigned [true], so it is a boolean with [undefined] read as [false].
    [log_forwards] is the choice the constructor makes between the two
    bodies of [this.log].  [port] and [host] are read by the passive filter
    and assigned nowhere in this file: the application sets them.
    [listeners] are the registrations on the socket itself ([this.on]).
    [destroyed] is inherited from the stream, where it reads the stream's
    own state: [false] on a new stream, and set by the stream's [destroy]
    before it calls [_destroy]; the field here holds what the constructor
    finds and what [_construct] assigns, and no property below reads it. *)
Record Socket : Type := {
  logger : jsval;
  log_forwards : bool;
  writeBuffer : list jsval;
  sctp_sndrcvinfo : gmap string jsval;
  p2p : bool;
  port : jsval;
  host : jsval;
  destroyed : jsval;
  connecting : jsval;
  bufferSize : jsval;
  bytesRead : jsval;
  bytesWritten : jsval;
  _endpoint : option Endpoint.t;
  localPort : jsval;
  localAddress : jsval;
  _association : option Association.t;
  remotePort : jsval;
  remoteAddress : jsval;
  remoteFamily : jsval;
  listeners : list (string * jsval)
}.

(** The store: the socket, and the closures it has registered on its
    collaborators.  [connect] registers on an endpoint one
    ['COMMUNICATION UP'] listener, which captures that endpoint;
    [_construct] registers on an association five listeners, which capture
    the endpoint and the association it was called with. *)
Record World : Type := {
  socket : Socket;
  endpoint_handlers : list Endpoint.t;
  association_handlers : list (Association.t * Endpoint.t)
}.

(** ** Traces *)

(** The calls that leave the socket, in program order. *)
Inductive Event : Type :=
| Log (level : string) (rest : list jsval)
| Emit (event : string) (args : list jsval)
| Push (chunk : jsval)
| Callback (callback : jsval) (args : list jsval)
| Endpoint_INITIALIZE (initOptions : gmap string jsval)
| Endpoint_on (endpoint : Endpoint.t) (event : string)
| Endpoint_ASSOCIATE (endpoint : Endpoint.t) (assocOptions : gmap string jsval)
| Endpoint_DESTROY (endpoint : Endpoint.t)
| Endpoint_set (endpoint : Endpoint.t) (key : string) (value : jsval)
| Association_on (association : Association.t) (event : string)
| Association_SEND (association : Association.t) (chunk : jsval)
    (sndrcvinfo : gmap string jsval) (callback : jsval)
| Association_RECEIVE (association : Association.t) (stream_id : jsval)
| Association_SHUTDOWN (association : Association.t) (callback : jsval)
| Association_ABORT (association : Association.t) (args : list jsval)
| Association_set (association : Association.t) (key : string) (value : jsval).

(** ** The monad *)

(** How a JavaScript computation ends: it returns a value or it throws one. *)
Inductive completion (A : Type) : Type :=
| Normal (a : A)
| Throw (e : jsval).
Arguments Normal {A} a.
Arguments Throw {A} e.

(** A method: from the store it finds to the store it leaves, the calls it
    made and how it ended.  What was assigned before a throw stays
    assigned. *)
Definition M (A : Type) : Type := World -> World * list Event * completion A.

Definition ret {A} (a : A) : M A := fun w => (w, [], Normal a).

Definition bind {A B} (m : M A) (f : A -> M B) : M B := fun w =>
  match m w with
  | (w1, t1, Normal a) =>
      match f a w1 with (w2, t2, c) => (w2, t1 ++ t2, c) end
  | (w1, t1, Throw e) => (w1, t1, Throw e)
  end.

#[global] Instance M_ret : MRet M := @ret.
#[global] Instance M_bind : MBind M := fun A B f m => bind m f.

Definition throw {A} (e : jsval) : M A := fun w => (w, [], Throw e).
Definition tell (e : Event) : M unit := fun w => (w, [e], Normal tt).
Definition this : M Socket := fun w => (w, [], Normal (socket w)).
Definition modify (f : World -> World) : M unit := fun w => (f w, [], Normal tt).

Definition state_of {A} (r : World * list Event * completion A) : World := r.1.1.
Definition trace_of {A} (r : World * list Event * completion A) : list Event := r.1.2.
Definition outcome_of {A} (r : World * list Event * completion A) : completion A := r.2.

(** The [TypeError] of dereferencing [null] or [undefined]; [site] names the
    expression whose base was missing (the engine's own text is not
    modelled). *)
Definition TypeError {A} (site : string) : M A := throw (JError "TypeError" site).
Definition Error {A} (message : string) : M A := throw (JError "Error" message).

Definition read (site : string) (v : jsval) (key : string) : M jsval :=
  match get_prop v key with
  | Some x => ret x
  | None => TypeError site
  end.

(** [f(...args)]. *)
Definition call (f : jsval) (args : list jsval) : M unit :=
  match f with
  | JFun _ => tell (Callback f args)
  | _ => TypeError "callback"
  end.

(** ** Assignments to the socket's fields *)

(** [this.p2p = b] *)
Definition assign_p2p (b : bool) (s : Socket) : Socket :=
  {| logger := logger s; log_forwards := log_forwards s;
     writeBuffer := writeBuffer s; sctp_sndrcvinfo := sctp_sndrcvinfo s;
     p2p := b; port := port s; host := host s; destroyed := destroyed s;
     connecting := connecting s; bufferSize := bufferSize s;
     bytesRead := bytesRead s; bytesWritten := bytesWritten s;
     _endpoint := _endpoint s; localPort := localPort s;
     localAddress := localAddress s; _association := _association s;
     remotePort := remotePort s; remoteAddress := remoteAddress s;
     remoteFamily := remoteFamily s; listeners := listeners s |}.

(** [this.port = v] *)
Definition assign_port (v : jsval) (s : Socket) : Socket :=
  {| logger := logger s; log_forwards := log_forwards s;
     writeBuffer := writeBuffer s; sctp_sndrcvinfo := sctp_sndrcvinfo s;
     p2p := p2p s; port := v; host := host s; destroyed := destroyed s;
     connecting := connecting s; bufferSize := bufferSize s;
     bytesRead := bytesRead s; bytesWritten := bytesWritten s;
     _endpoint := _endpoint s; localPort := localPort s;
     localAddress := localAddress s; _association := _association s;
     remotePort := remotePort s; remoteAddress := remoteAddress s;
     remoteFamily := remoteFamily s; listeners := listeners s |}.

(** [this.host = v] *)
Definition assign_host (v : jsval) (s : Socket) : Socket :=
  {| logger := logger s; log_forwards := log_forwards s;
     writeBuffer := writeBuffer s; sctp_sndrcvinfo := sctp_sndrcvinfo s;
     p2p := p2p s; port := port s; host := v; destroyed := destroyed s;
     connecting := connecting s; bufferSize := bufferSize s;
     bytesRead := bytesRead s; bytesWritten := bytesWritten s;
     _endpoint := _endpoint s; localPort := localPort s;
     localAddress := localAddress s; _association := _association s;
     remotePort := remotePort s; remoteAddress := remoteAddress s;
     remoteFamily := remoteFamily s; listeners := listeners s |}.

(** [this.sctp_sndrcvinfo] after a mutation of the object it refers to *)
Definition assign_sctp_sndrcvinfo (m : gmap string jsval) (s : Socket) : Socket :=
  {| logger := logger s; log_forwards := log_forwards s;
     writeBuffer := writeBuffer s; sctp_sndrcvinfo := m; p2p := p2p s;
     port := port s; host := host s; destroyed := destroyed s;
     connecting := connecting s; bufferSize := bufferSize s;
     bytesRead := bytesRead s; bytesWritten := bytesWritten s;
     _endpoint := _endpoint s; localPort := localPort s;
     localAddress := localAddress s; _association := _association s;
     remotePort := remotePort s; remoteAddress := remoteAddress s;
     remoteFamily := remoteFamily s; listeners := listeners s |}.

(** [this.on(event, listener)] *)
Definition add_listener (event : string) (listener : jsval) (s : Socket) : Socket :=
  {| logger := logger s; log_forwards := log_forwards s;
     writeBuffer := writeBuffer s; sctp_sndrcvinfo := sctp_sndrcvinfo s;
     p2p := p2p s; port := port s; host := host s; destroyed := destroyed s;
     connecting := connecting s; bufferSize := bufferSize s;
     bytesRead := bytesRead s; bytesWritten := bytesWritten s;
     _endpoint := _endpoint s; localPort := localPort s;
     localAddress := localAddress s; _association := _association s;
     remotePort := remotePort s; remoteAddress := remoteAddress s;
     remoteFamily := remoteFamily s;
     listeners := listeners s ++ [(event, listener)] |}.

(** The assignments of [_construct] from [this.destroyed = false] down to
    [this._association = association]. *)
Definition assign_local (endpoint : Endpoint.t) (association : option Association.t) (s : Socket) : Socket :=
  {| logger := logger s; log_forwards := log_forwards s;
     writeBuffer := writeBuffer s; sctp_sndrcvinfo := sctp_sndrcvinfo s;
     p2p := p2p s; port := port s; host := host s; destroyed := JBool false;
     connecting := JBool false; bufferSize := JNum 0; bytesRead := JNum 0;
     bytesWritten := JNum 0; _endpoint := Some endpoint;
     localPort := Endpoint.localPort endpoint;
     localAddress := Endpoint.localAddress endpoint;
     _association := association; remotePort := remotePort s;
     remoteAddress := remoteAddress s; remoteFamily := remoteFamily s;
     listeners := listeners s |}.

(** The assignments of [_construct] that read the association:
    [this.remotePort], [this.remoteAddress], [this.remoteFamily]. *)
Definition assign_remote (association : Association.t) (s : Socket) : Socket :=
  {| logger := logger s; log_forwards := log_forwards s;
     writeBuffer := writeBuffer s; sctp_sndrcvinfo := sctp_sndrcvinfo s;
     p2p := p2p s; port := port s; host := host s; destroyed := destroyed s;
     connecting := connecting s; bufferSize := bufferSize s;
     bytesRead := bytesRead s; bytesWritten := bytesWritten s;
     _endpoint := _endpoint s; localPort := localPort s;
     localAddress := localAddress s; _association := _association s;
     remotePort := JNum (Association.remotePort association);
     remoteAddress := JStr (Association.remoteAddress association);
     remoteFamily := JStr "IPv4"; listeners := listeners s |}.

(** The same changes, on the store. *)
Definition on_socket (f : Socket -> Socket) (w : World) : World :=
  {| socket := f (socket w);
     endpoint_handlers := endpoint_handlers w;
     association_handlers := association_handlers w |}.

Definition register_endpoint_handler (endpoint : Endpoint.t) (w : World) : World :=
  {| socket := socket w;
     endpoint_handlers := endpoint_handlers w ++ [endpoint];
     association_handlers := association_handlers w |}.

Definition register_association_handlers
  (association : Association.t) (endpoint : Endpoint.t) (w : World) : World :=
  {| socket := socket w;
     endpoint_handlers := endpoint_handlers w;
     association_handlers := association_handlers w ++ [(association, endpoint)] |}.

(** ** The inherited stream and emitter operations *)

(** [this.log(level, ...rest)]: forwarded to [logger.log(level, 'socket -',
    ...rest)] when the constructor found a logger with a [log] function,
    and nothing otherwise. *)
Definition log (level : string) (rest : list jsval) : M unit :=
  s ← this;
  if log_forwards s then tell (Log level rest) else ret tt.

Definition has_listener (event : string) (s : Socket) : bool :=
  existsb (fun l => String.eqb l.1 event) (listeners s).

(** [this.emit(event, ...args)].  Node's emitter throws on an ['error'] event
    nobody listens to: the argument when it is an [Error], a fresh
    "unhandled" [Error] otherwise.  What the application's listeners do is
    outside the model. *)
Definition emit (event : string) (args : list jsval) : M unit :=
  s ← this;
  tell (Emit event args);;
  if String.eqb event "error" && negb (has_listener "error" s) then
    match args with
    | JError name message :: _ => throw (JError name message)
    | _ => Error "Unhandled error."
    end
  else ret tt.

(** [this.on(event, listener)]. *)
Definition on (event : string) (listener : jsval) : M unit :=
  modify (on_socket (add_listener event listener)).

(** [this.push(chunk)]. *)
Definition push (chunk : jsval) : M unit := tell (Push chunk).

(** ** Calls on the collaborators *)

Definition Endpoint_DESTROY_call (endpoint : Endpoint.t) : M unit :=
  tell (Endpoint_DESTROY endpoint).

Definition Association_ABORT_call (env : Env) (association : Association.t)
  (args : list jsval) : M unit :=
  tell (Association_ABORT association args);;
  match ABORT env association args with
  | Some e => throw e
  | None => ret tt
  end.

Definition Association_RECEIVE_call (env : Env) (association : Association.t)
  (stream_id : jsval) : M jsval :=
  tell (Association_RECEIVE association stream_id);;
  ret (RECEIVE env association stream_id).

(** ** The socket *)

(** [new Socket(options)]: the fresh store and what the constructor logs. *)
Definition new_Socket (options : jsval) : World * list Event :=
  let options := if truthy options then options else JObj ∅ in
  let logger := default JUndefined (get_prop options "logger") in
  let forwards :=
    truthy logger &&
    String.eqb (typeof (default JUndefined (get_prop logger "log"))) "function" in
  ({| socket :=
        {| logger := logger; log_forwards := forwards; writeBuffer := [];
           sctp_sndrcvinfo :=
             {[ "protocol" := default JUndefined (get_prop options "protocol") ]};
           p2p := false; port := JUndefined; host := JUndefined;
           destroyed := JBool false; connecting := JUndefined;
           bufferSize := JUndefined; bytesRead := JUndefined;
           bytesWritten := JUndefined; _endpoint := None;
           localPort := JUndefined; localAddress := JUndefined;
           _association := None; remotePort := JUndefined;
           remoteAddress := JUndefined; remoteFamily := JUndefined;
           listeners := [] |};
      endpoint_handlers := [];
      association_handlers := [] |},
   if forwards then [Log "debug" [JStr "start SCTP socket"]] else []).

Definition address : M jsval :=
  s ← this;
  ret (JObj {[ "port" := localPort s; "address" := localAddress s;
               "family" := JStr "IPv4" ]}).

(** The five listeners [_construct] puts on the association. *)
Definition on_COMMUNICATION_UP : M unit :=
  emit "connect" [];;
  log "info" [JStr "socket connected"].

Definition on_DATA_ARRIVE (env : Env) (association : Association.t)
  (stream_id : jsval) : M unit :=
  buffer ← Association_RECEIVE_call env association stream_id;
  if truthy buffer then
    log "debug" [JStr "< DATA ARRIVE"; length_of buffer; buffer];;
    push buffer
  else ret tt.

Definition on_SHUTDOWN_COMPLETE (endpoint : Endpoint.t) : M unit :=
  log "debug" [JStr "socket ended"];;
  s ← this;
  (if p2p s then Endpoint_DESTROY_call endpoint else ret tt);;
  emit "end" [].

Definition on_COMMUNICATION_LOST (endpoint : Endpoint.t) (event reason : jsval)
  : M unit :=
  log "info" [JStr "COMMUNICATION LOST"; event; reason];;
  s ← this;
  (if p2p s then Endpoint_DESTROY_call endpoint else ret tt);;
  emit "close" [].

Definition on_COMMUNICATION_ERROR : M unit :=
  emit "error" [].

(** [_construct(endpoint, association)].  [connect] only calls it with an
    endpoint that exists; the association is what [ASSOCIATE] returned, or
    the one the endpoint announced. *)
Definition _construct (endpoint : Endpoint.t) (association : option Association.t)
  : M unit :=
  modify (on_socket (assign_local endpoint association));;
  match association with
  | None => TypeError "association.remotePort"
  | Some a =>
      modify (on_socket (assign_remote a));;
      tell (Association_on a "COMMUNICATION UP");;
      tell (Association_on a "DATA ARRIVE");;
      tell (Association_on a "SHUTDOWN COMPLETE");;
      tell (Association_on a "COMMUNICATION LOST");;
      tell (Association_on a "COMMUNICATION ERROR");;
      modify (register_association_handlers a endpoint)
  end.

(** The listener [connect] puts on the endpoint in listen mode. *)
Definition peer_matches (s : Socket) (association : Association.t) : bool :=
  num_strict_eq (Association.remotePort association) (port s) &&
  str_strict_eq (Association.remoteAddress association) (host s).

Definition on_endpoint_COMMUNICATION_UP (env : Env) (endpoint : Endpoint.t)
  (association : Association.t) : M unit :=
  s ← this;
  if peer_matches s association then
    log "trace" [JStr "remote peer2peer socket connected"];;
    _construct endpoint (Some association);;
    emit "connect" []
  else
    log "warn" [JStr "remote peer2peer socket rejected port";
                JNum (Association.remotePort association)];;
    Association_ABORT_call env association [].

(** The local function [multi] of [connect]. *)
Definition multi (env : Env) (address : jsval) : list jsval :=
  let addresses :=
    match address with JArr items => items | _ => [address] end in
  filter (fun a => isV4Format env a = true) addresses.

(** The object literal [assocOptions] of [connect], once its fields are
    assigned. *)
Definition assocOptions (remotePort : Z) (host : jsval) : gmap string jsval :=
  {[ "streams" := JNum 1;
     "remotePort" := JNum remotePort;
     "remoteAddress" := if truthy host then host else JStr "127.0.0.1" ]}.

(** The object literal [initOptions] of [connect], after the two conditional
    assignments of [localAddress] and [localPort]. *)
Definition initOptions (env : Env) (MIS OS localAddress localPort : jsval)
  : gmap string jsval :=
  let initOptions : gmap string jsval := {[ "MIS" := MIS; "OS" := OS ]} in
  let initOptions :=
    if truthy localAddress
    then <[ "localAddress" := JArr (multi env localAddress) ]> initOptions
    else initOptions in
  if truthy localPort && negb (ToInt32 env localPort =? 0)
  then <[ "localPort" := JNum (ToInt32 env localPort) ]> initOptions
  else initOptions.

(** What [connect] does once it holds the answer of [Endpoint.INITIALIZE]. *)
Definition connect_endpoint (env : Env) (options connectListener : jsval)
  (initOptions assocOptions : gmap string jsval) (endpoint : option Endpoint.t)
  : M unit :=
  (if endpoint is None then
     emit "error"
       [JError "Error"
          ("unable to allocate port " +:+
           ToString (default JUndefined (initOptions !! "localPort")))]
   else ret tt);;
  (if String.eqb (typeof connectListener) "function"
   then on "connect" connectListener else ret tt);;
  listen ← read "options" options "listen";
  if truthy listen then
    match endpoint with
    | None => TypeError "endpoint"
    | Some endpoint =>
        tell (Endpoint_on endpoint "COMMUNICATION UP");;
        modify (register_endpoint_handler endpoint)
    end
  else
    match endpoint with
    | None => TypeError "endpoint"
    | Some endpoint =>
        tell (Endpoint_ASSOCIATE endpoint assocOptions);;
        _construct endpoint (ASSOCIATE env endpoint assocOptions)
    end.

Definition connect (env : Env) (options connectListener : jsval) : M unit :=
  s ← this;
  if p2p s then ret tt else
  modify (on_socket (assign_p2p true));;
  if negb (String.eqb (typeof options) "object") then Error "options required" else
  log "debug" [JStr "connect"; options];;
  port ← read "options" options "port";
  let remotePort := ToInt32 env port in
  if remotePort =? 0 then Error "port is required" else
  host ← read "options" options "host";
  let assocOptions := assocOptions remotePort host in
  MIS ← read "options" options "MIS";
  OS ← read "options" options "OS";
  localAddress ← read "options" options "localAddress";
  localPort ← read "options" options "localPort";
  let initOptions := initOptions env MIS OS localAddress localPort in
  log "debug" [JStr "init & assoc options"; JObj initOptions; JObj assocOptions];;
  tell (Endpoint_INITIALIZE initOptions);;
  connect_endpoint env options connectListener initOptions assocOptions
    (INITIALIZE env initOptions).

Definition _final (callback : jsval) : M unit :=
  s ← this;
  match _association s with
  | Some association => tell (Association_SHUTDOWN association callback)
  | None => ret tt
  end.

(** [params.forEach(key => { if (options.hasOwnProperty(key)) target[key] =
    options[key] })], with [assign] the event of the assignment. *)
Fixpoint copy_params (assign : string -> jsval -> Event) (options : jsval)
  (params : list string) : M unit :=
  match params with
  | [] => ret tt
  | key :: rest =>
      match hasOwnProperty options key with
      | None => TypeError "options"
      | Some true =>
          value ← read "options" options key;
          tell (assign key value);;
          copy_params assign options rest
      | Some false => copy_params assign options rest
      end
  end.

Definition SCTP_ASSOCINFO (options : jsval) : M unit :=
  let params := ["valid_cookie_life"%string] in
  s ← this;
  match _endpoint s with
  | Some endpoint =>
      if String.eqb (typeof options) "object"
      then copy_params (Endpoint_set endpoint) options params
      else ret tt
  | None => ret tt
  end.

(** [Object.assign] mutates the object [this.sctp_sndrcvinfo] refers to. *)
Definition SCTP_DEFAULT_SEND_PARAM (options : jsval) : M unit :=
  s ← this;
  modify (on_socket
    (assign_sctp_sndrcvinfo (Object_assign (sctp_sndrcvinfo s) options))).

Definition SCTP_PEER_ADDR_PARAMS (options : jsval) : M unit :=
  let params := ["sack_timeout"; "sack_freq"; "hb_interval"]%string in
  s ← this;
  match _association s with
  | Some association =>
      if String.eqb (typeof options) "object"
      then copy_params (Association_set association) options params
      else ret tt
  | None => ret tt
  end.

Definition _read (size : jsval) : M unit := ret tt.

(** [_write(chunk, options, callback)].  The send receives the object
    [this.sctp_sndrcvinfo] itself; the trace keeps its content at the time
    of the call. *)
Definition _write (chunk options callback : jsval) : M unit :=
  s ← this;
  let association := _association s in
  log "debug" [JStr "> write"; JObj (sctp_sndrcvinfo s); chunk];;
  match association with
  | Some association =>
      tell (Association_SEND association chunk (sctp_sndrcvinfo s) callback)
  | None =>
      call callback [JError "Error" "no association established"]
  end.

Definition _destroy (env : Env) (err callback : jsval) : M unit :=
  log "fatal" [JStr "destroy"];;
  s ← this;
  match _association s with
  | None => TypeError "this._association"
  | Some association =>
      Association_ABORT_call env association [err];;
      call callback []
  end.

(** ** Events from the collaborators *)

Inductive AssociationEvent : Type :=
| COMMUNICATION_UP
| DATA_ARRIVE (stream_id : jsval)
| SHUTDOWN_COMPLETE
| COMMUNICATION_LOST (event reason : jsval)
| COMMUNICATION_ERROR.

(** The listener [_construct(endpoint, association)] registered for [ev]. *)
Definition association_listener (env : Env) (endpoint : Endpoint.t)
  (association : Association.t) (ev : AssociationEvent) : M unit :=
  match ev with
  | COMMUNICATION_UP => on_COMMUNICATION_UP
  | DATA_ARRIVE stream_id => on_DATA_ARRIVE env association stream_id
  | SHUTDOWN_COMPLETE => on_SHUTDOWN_COMPLETE endpoint
  | COMMUNICATION_LOST event reason => on_COMMUNICATION_LOST endpoint event reason
  | COMMUNICATION_ERROR => on_COMMUNICATION_ERROR
  end.

(** An emitter calls the listeners it holds in registration order; a
    listener that throws ends the emission. *)
Fixpoint call_listeners {A} (body : A -> M unit) (registered : list A) : M unit :=
  match registered with
  | [] => ret tt
  | h :: rest => body h;; call_listeners body rest
  end.

Definition handlers_of_endpoint (endpoint : Endpoint.t) (w : World)
  : list Endpoint.t :=
  filter (fun e => Endpoint.id e = Endpoint.id endpoint) (endpoint_handlers w).

Definition handlers_of_association (association : Association.t) (w : World)
  : list (Association.t * Endpoint.t) :=
  filter (fun h => Association.id h.1 = Association.id association)
         (association_handlers w).

(** [endpoint] emits ['COMMUNICATION UP'] with [association]. *)
Definition endpoint_emits (env : Env) (endpoint : Endpoint.t)
  (association : Association.t) : M unit := fun w =>
  call_listeners (fun e => on_endpoint_COMMUNICATION_UP env e association)
    (handlers_of_endpoint endpoint w) w.

(** [association] emits [ev]. *)
Definition association_emits (env : Env) (association : Association.t)
  (ev : AssociationEvent) : M unit := fun w =>
  call_listeners (fun h => association_listener env h.2 h.1 ev)
    (handlers_of_association association w) w.

(** ** Runs *)

(** What can happen to a socket: the application calls a method (the stream
    machinery calls [_final], [_read], [_write] and [_destroy] on its behalf),
    registers a listener, assigns the expected peer, or a collaborator emits
    an event.  What the stream base class does on its own account is not
    among the operations; recent versions of Node treat a method named
    [_construct] as a hook of theirs and call it with a callback shortly
    after the constructor. *)
Inductive Op : Type :=
| Call_address
| Call_connect (options connectListener : jsval)
| Call_final (callback : jsval)
| Call_SCTP_ASSOCINFO (options : jsval)
| Call_SCTP_DEFAULT_SEND_PARAM (options : jsval)
| Call_SCTP_PEER_ADDR_PARAMS (options : jsval)
| Call_read (size : jsval)
| Call_write (chunk options callback : jsval)
| Call_destroy (err callback : jsval)
| Call_on (event : string) (listener : jsval)
| Assign_port (v : jsval)
| Assign_host (v : jsval)
| Endpoint_emits (endpoint : Endpoint.t) (association : Association.t)
| Association_emits (association : Association.t) (ev : AssociationEvent).

Definition step (env : Env) (op : Op) : M unit :=
  match op with
  | Call_address => address;; ret tt
  | Call_connect options connectListener => connect env options connectListener
  | Call_final callback => _final callback
  | Call_SCTP_ASSOCINFO options => SCTP_ASSOCINFO options
  | Call_SCTP_DEFAULT_SEND_PARAM options => SCTP_DEFAULT_SEND_PARAM options
  | Call_SCTP_PEER_ADDR_PARAMS options => SCTP_PEER_ADDR_PARAMS options
  | Call_read size => _read size
  | Call_write chunk options callback => _write chunk options callback
  | Call_destroy err callback => _destroy env err callback
  | Call_on event listener => on event listener
  | Assign_port v => modify (on_socket (assign_port v))
  | Assign_host v => modify (on_socket (assign_host v))
  | Endpoint_emits endpoint association => endpoint_emits env endpoint association
  | Association_emits association ev => association_emits env association ev
  end.

(** Each operation is a turn of its own: an exception goes to whoever made
    the call and the next operation finds the store as the throw left it. *)
Fixpoint run (ops : list (Env * Op)) (w : World) : World * list Event :=
  match ops with
  | [] => (w, [])
  | (env, op) :: rest =>
      let r := step env op w in
      let r' := run rest (state_of r) in
      (r'.1, trace_of r ++ r'.2)
  end.

(** The stores a socket can be in: that of a fresh socket, and those any
    operation leads to from there. *)
Inductive reachable : World -> Prop :=
| reachable_new options : reachable (new_Socket options).1
| reachable_step env op w : reachable w -> reachable (state_of (step env op w)).

(** ** Reading traces *)

Definition log_trace (s : Socket) (level : string) (rest : list jsval)
  : list Event :=
  if log_forwards s then [Log level rest] else [].

Definition callbacks (tr : list Event) : list (jsval * list jsval) :=
  omap (fun e => match e with Callback c args => Some (c, args) | _ => None end) tr.

Definition emitted (tr : list Event) : list (string * list jsval) :=
  omap (fun e => match e with Emit ev args => Some (ev, args) | _ => None end) tr.

Definition pushed (tr : list Event) : list jsval :=
  omap (fun e => match e with Push chunk => Some chunk | _ => None end) tr.

Definition sends (tr : list Event)
  : list (Association.t * jsval * gmap string jsval * jsval) :=
  omap (fun e => match e with
                 | Association_SEND a chunk info c => Some (a, chunk, info, c)
                 | _ => None
                 end) tr.

Definition shutdowns (tr : list Event) : list (Association.t * jsval) :=
  omap (fun e => match e with
                 | Association_SHUTDOWN a c => Some (a, c)
                 | _ => None
                 end) tr.

Definition aborts (tr : list Event) : list (Association.t * list jsval) :=
  omap (fun e => match e with
                 | Association_ABORT a args => Some (a, args)
                 | _ => None
                 end) tr.

Definition destroyed_endpoints (tr : list Event) : list Endpoint.t :=
  omap (fun e => match e with Endpoint_DESTROY ep => Some ep | _ => None end) tr.

(** The calls made on the [Endpoint] class or on an endpoint. *)
Definition is_endpoint_call (e : Event) : bool :=
  match e with
  | Endpoint_INITIALIZE _ | Endpoint_on _ _ | Endpoint_ASSOCIATE _ _
  | Endpoint_DESTROY _ | Endpoint_set _ _ _ => true
  | _ => false
  end.

Definition endpoint_calls (tr : list Event) : list Event :=
  filter (fun e => is_endpoint_call e = true) tr.

(** The three counters of a socket. *)
Definition counters (s : Socket) : jsval * jsval * jsval :=
  (bufferSize s, bytesRead s, bytesWritten s).

(** ** Sample collaborators and stores *)

(** A runtime whose [ToNumber] reads strings of decimal digits and answers
    NaN (truncated to 0) on everything else; an [ip] test that accepts every
    string.  The samples below pass numbers for ports and no local address,
    so neither is exercised beyond that. *)
Definition digit (c : Ascii.ascii) : option Z :=
  let n := Z.of_N (Ascii.N_of_ascii c) in
  if (48 <=? n) && (n <=? 57) then Some (n - 48) else None.

Fixpoint decimal (acc : Z) (s : string) : option Z :=
  match s with
  | EmptyString => Some acc
  | String c rest =>
      match digit c with
      | Some d => decimal (10 * acc + d) rest
      | None => None
      end
  end.

Definition sample_ToIntegral (v : jsval) : Z :=
  match v with
  | JStr s => default 0 (decimal 0 s)
  | _ => 0
  end.

Definition sample_isV4Format (v : jsval) : bool :=
  match v with JStr _ => true | _ => false end.

Definition sample_endpoint : Endpoint.t :=
  Endpoint.Build 1 (JNum 6000) (JStr "0.0.0.0").

Definition sample_peer : Association.t :=
  Association.Build 1 5000 "10.0.0.2".

(** A second association of the same peer address and port: another object. *)
Definition sample_peer_again : Association.t :=
  Association.Build 2 5000 "10.0.0.2".

(** An association from another port of the same host. *)
Definition sample_stranger : Association.t :=
  Association.Build 3 5001 "10.0.0.2".

(** Collaborators that answer every call and never throw. *)
Definition sample_env : Env :=
  {| ToIntegral := sample_ToIntegral;
     isV4Format := sample_isV4Format;
     INITIALIZE := fun _ => Some sample_endpoint;
     ASSOCIATE := fun _ _ => Some sample_peer;
     RECEIVE := fun _ _ => JNull;
     ABORT := fun _ _ => None |}.

(** The same, with an association whose [ABORT] throws. *)
Definition abort_throws_env : Env :=
  {| ToIntegral := sample_ToIntegral;
     isV4Format := sample_isV4Format;
     INITIALIZE := fun _ => Some sample_endpoint;
     ASSOCIATE := fun _ _ => Some sample_peer;
     RECEIVE := fun _ _ => JNull;
     ABORT := fun _ _ => Some (JError "Error" "abort failed") |}.

(** The same, with no port to allocate: [Endpoint.INITIALIZE] answers
    nothing. *)
Definition no_port_env : Env :=
  {| ToIntegral := sample_ToIntegral;
     isV4Format := sample_isV4Format;
     INITIALIZE := fun _ => None;
     ASSOCIATE := fun _ _ => Some sample_peer;
     RECEIVE := fun _ _ => JNull;
     ABORT := fun _ _ => None |}.

(** [new Socket()]. *)
Definition fresh : World := (new_Socket JUndefined).1.

(** [{port: 5000, localPort: 6000}] and [{port: 5000, listen: true}]. *)
Definition active_options : jsval :=
  JObj {[ "port" := JNum 5000; "localPort" := JNum 6000 ]}.

Definition listen_options : jsval :=
  JObj {[ "port" := JNum 5000; "listen" := JBool true ]}.

(** A socket after [connect({port: 5000, localPort: 6000})]. *)
Definition sample_bound : World :=
  state_of (connect sample_env active_options JUndefined fresh).

(** A socket told to expect the peer 10.0.0.2:5000, after
    [connect({port: 5000, listen: true})]. *)
Definition sample_listening : World :=
  (run [(sample_env, Assign_port (JNum 5000));
        (sample_env, Assign_host (JStr "10.0.0.2"));
        (sample_env, Call_connect listen_options JUndefined)] fresh).1.

(** [callback] leaves the method in [tr]: it is called, or it is given to the
    association, which calls it when the operation it was given to (a send, a
    shutdown) completes. *)
Definition hands_over (tr : list Event) (callback : jsval) : Prop :=
  (exists args, In (Callback callback args) tr) \/
  (exists a, In (Association_SHUTDOWN a callback) tr) \/
  (exists a chunk info, In (Association_SEND a chunk info callback) tr).

(** A fresh socket on which the application listens for ['error']. *)
Definition sample_listened : World :=
  state_of (on "error" (JFun 9) fresh).

(** ** Invariants of the store *)

(** The store after [_construct(endpoint, association)] on [w]. *)
Definition bound_to (endpoint : Endpoint.t) (association : Association.t)
  (w : World) : World :=
  register_association_handlers association endpoint
    (on_socket (assign_remote association)
       (on_socket (assign_local endpoint (Some association)) w)).

(** The five registrations [_construct] makes on the association. *)
Definition construct_trace (association : Association.t) : list Event :=
  [Association_on association "COMMUNICATION UP";
   Association_on association "DATA ARRIVE";
   Association_on association "SHUTDOWN COMPLETE";
   Association_on association "COMMUNICATION LOST";
   Association_on association "COMMUNICATION ERROR"].

(** What holds of every store a socket can be in.  Before [connect] nothing
    is bound and nothing is registered on an endpoint; a bound socket has its
    counters at zero, holds the endpoint it was bound with, and its listeners
    are registered on the association it is bound to; an endpoint carries at
    most one of the socket's listeners. *)
Record consistent (w : World) : Prop := {
  unconnected :
    p2p (socket w) = false ->
    _association (socket w) = None /\ endpoint_handlers w = [];
  bound_state :
    forall a, _association (socket w) = Some a ->
      counters (socket w) = (JNum 0, JNum 0, JNum 0) /\
      exists e, _endpoint (socket w) = Some e /\
                In (a, e) (association_handlers w);
  one_filter : (length (endpoint_handlers w) <= 1)%nat
}.

(** A method is read-only when it leaves the store as it found it, however
    it ends. *)
Definition readonly {A} (m : M A) : Prop := forall w, state_of (m w) = w.

(** The trace of the two teardown listeners: the log line, the endpoint's
    [DESTROY] in [p2p] mode, the event. *)
Definition teardown_trace (s : Socket) (level : string) (line : list jsval)
  (event : string) (endpoint : Endpoint.t) : list Event :=
  log_trace s level line ++
  (if p2p s then [Endpoint_DESTROY endpoint] else []) ++ [Emit event []].

(** ** Further readings of traces and stores *)

Definition initializations (tr : list Event) : list (gmap string jsval) :=
  omap (fun e => match e with Endpoint_INITIALIZE o => Some o | _ => None end) tr.

Definition associate_calls (tr : list Event)
  : list (Endpoint.t * gmap string jsval) :=
  omap (fun e => match e with
                 | Endpoint_ASSOCIATE ep o => Some (ep, o)
                 | _ => None
                 end) tr.

Definition receives (tr : list Event) : list (Association.t * jsval) :=
  omap (fun e => match e with
                 | Association_RECEIVE a sid => Some (a, sid)
                 | _ => None
                 end) tr.

Definition endpoint_sets (tr : list Event)
  : list (Endpoint.t * string * jsval) :=
  omap (fun e => match e with
                 | Endpoint_set ep key v => Some (ep, key, v)
                 | _ => None
                 end) tr.

Definition association_sets (tr : list Event)
  : list (Association.t * string * jsval) :=
  omap (fun e => match e with
                 | Association_set a key v => Some (a, key, v)
                 | _ => None
                 end) tr.

Definition is_log (e : Event) : bool :=
  match e with Log _ _ => true | _ => false end.

(** A method respects a property of the store and a set of events when,
    started in a store with the property, it leaves a store with the
    property, however it ends, and every call in its trace is an allowed
    one. *)
Definition respects {A} (I : World -> Prop) (allowed : Event -> bool)
  (m : M A) : Prop :=
  forall w, I w ->
    I (state_of (m w)) /\ Forall (fun e => allowed e = true) (trace_of (m w)).

(** The calls each operation can be seen to make, by the kind of the call
    and, for an emitted event, by its name.  A log line can come from any
    operation. *)
Definition footprint (op : Op) (e : Event) : bool :=
  match e with
  | Log _ _ => true
  | Emit ev _ =>
      match op with
      | Call_connect _ _ => String.eqb ev "error"
      | Endpoint_emits _ _ => String.eqb ev "connect"
      | Association_emits _ COMMUNICATION_UP => String.eqb ev "connect"
      | Association_emits _ SHUTDOWN_COMPLETE => String.eqb ev "end"
      | Association_emits _ (COMMUNICATION_LOST _ _) => String.eqb ev "close"
      | Association_emits _ COMMUNICATION_ERROR => String.eqb ev "error"
      | _ => false
      end
  | Push _ | Association_RECEIVE _ _ =>
      match op with Association_emits _ (DATA_ARRIVE _) => true | _ => false end
  | Callback _ _ =>
      match op with Call_write _ _ _ | Call_destroy _ _ => true | _ => false end
  | Endpoint_INITIALIZE _ | Endpoint_on _ _ | Endpoint_ASSOCIATE _ _ =>
      match op with Call_connect _ _ => true | _ => false end
  | Endpoint_DESTROY _ =>
      match op with
      | Association_emits _ SHUTDOWN_COMPLETE
      | Association_emits _ (COMMUNICATION_LOST _ _) => true
      | _ => false
      end
  | Endpoint_set _ _ _ =>
      match op with Call_SCTP_ASSOCINFO _ => true | _ => false end
  | Association_on _ _ =>
      match op with Call_connect _ _ | Endpoint_emits _ _ => true | _ => false end
  | Association_SEND _ _ _ _ =>
      match op with Call_write _ _ _ => true | _ => false end
  | Association_SHUTDOWN _ _ =>
      match op with Call_final _ => true | _ => false end
  | Association_ABORT _ _ =>
      match op with Call_destroy _ _ | Endpoint_emits _ _ => true | _ => false end
  | Association_set _ _ _ =>
      match op with Call_SCTP_PEER_ADDR_PARAMS _ => true | _ => false end
  end.

(** The socket was created without a logger it can forward to. *)
Definition unlogged (w : World) : Prop := log_forwards (socket w) = false.

(** The socket's description of itself agrees with what it is bound to: the
    local port and address are those of the endpoint it holds, the remote
    port, address and family those of the association it is bound to; a
    local field whose endpoint was never there is still [undefined]. *)
Record described (w : World) : Prop := {
  local_identity :
    match _endpoint (socket w) with
    | Some e =>
        localPort (socket w) = Endpoint.localPort e /\
        localAddress (socket w) = Endpoint.localAddress e
    | None =>
        localPort (socket w) = JUndefined /\
        localAddress (socket w) = JUndefined
    end;
  remote_identity :
    match _association (socket w) with
    | Some a =>
        remotePort (socket w) = JNum (Association.remotePort a) /\
        remoteAddress (socket w) = JStr (Association.remoteAddress a) /\
        remoteFamily (socket w) = JStr "IPv4" /\
        is_Some (_endpoint (socket w))
    | None => True
    end
}.

(** The fields of [{port: 5000, localPort: 6000}]. *)
Definition sample_fields : gmap string jsval :=
  {[ "port" := JNum 5000; "localPort" := JNum 6000 ]}.

(** Collaborators whose endpoint creates no association. *)
Definition no_association_env : Env :=
  {| ToIntegral := sample_ToIntegral;
     isV4Format := sample_isV4Format;
     INITIALIZE := fun _ => Some sample_endpoint;
     ASSOCIATE := fun _ _ => None;
     RECEIVE := fun _ _ => JNull;
     ABORT := fun _ _ => None |}.

(** Collaborators whose association has a message waiting on every
    stream. *)
Definition receiving_env : Env :=
  {| ToIntegral := sample_ToIntegral;
     isV4Format := sample_isV4Format;
     INITIALIZE := fun _ => Some sample_endpoint;
     ASSOCIATE := fun _ _ => Some sample_peer;
     RECEIVE := fun _ _ => JBuf [Byte.x61; Byte.x62];
     ABORT := fun _ _ => None |}.

(** * Properties *)

(** ** The monad's equations *)

Lemma bind_unfold {A B} (m : M A) (f : A -> M B) (w : World) :
  (m ≫= f) w =
  match outcome_of (m w) with
  | Normal a =>
      (state_of (f a (state_of (m w))),
       trace_of (m w) ++ trace_of (f a (state_of (m w))),
       outcome_of (f a (state_of (m w))))
  | Throw e => (state_of (m w), trace_of (m w), Throw e)
  end.
Proof.
  unfold mbind, M_bind, bind, state_of, trace_of, outcome_of.
  destruct (m w) as [[w1 t1] [a|e]]; simpl; [|reflexivity].
  destruct (f a w1) as [[w2 t2] c]; reflexivity.
Qed.

Lemma state_of_bind {A B} (m : M A) (f : A -> M B) (w : World) :
  state_of ((m ≫= f) w) =
  match outcome_of (m w) with
  | Normal a => state_of (f a (state_of (m w)))
  | Throw _ => state_of (m w)
  end.
Proof. rewrite bind_unfold. destruct (outcome_of (m w)); reflexivity. Qed.

Lemma trace_of_bind {A B} (m : M A) (f : A -> M B) (w : World) :
  trace_of ((m ≫= f) w) =
  match outcome_of (m w) with
  | Normal a => trace_of (m w) ++ trace_of (f a (state_of (m w)))
  | Throw _ => trace_of (m w)
  end.
Proof. rewrite bind_unfold. destruct (outcome_of (m w)); reflexivity. Qed.

Lemma outcome_of_bind {A B} (m : M A) (f : A -> M B) (w : World) :
  outcome_of ((m ≫= f) w) =
  match outcome_of (m w) with
  | Normal a => outcome_of (f a (state_of (m w)))
  | Throw e => Throw e
  end.
Proof. rewrite bind_unfold. destruct (outcome_of (m w)); reflexivity. Qed.

Lemma log_unfold level rest w :
  log level rest w = (w, log_trace (socket w) level rest, Normal tt).
Proof.
  unfold log, log_trace. rewrite bind_unfold. cbn.
  destruct (log_forwards (socket w)); reflexivity.
Qed.

(** A step-by-step evaluation of a method at a store: binds are opened, the
    primitive actions computed. *)
Ltac mstep :=
  repeat first
    [ rewrite log_unfold
    | rewrite bind_unfold
    | progress cbn [state_of trace_of outcome_of fst snd this ret throw tell
                    modify TypeError Error mret M_ret app] ].

(** ** Methods that leave the store as it is *)

Lemma readonly_ret {A} (a : A) : readonly (ret a).
Proof. intros w; reflexivity. Qed.

Lemma readonly_throw {A} e : readonly (@throw A e).
Proof. intros w; reflexivity. Qed.

Lemma readonly_TypeError {A} site : readonly (@TypeError A site).
Proof. intros w; reflexivity. Qed.

Lemma readonly_Error {A} message : readonly (@Error A message).
Proof. intros w; reflexivity. Qed.

Lemma readonly_tell e : readonly (tell e).
Proof. intros w; reflexivity. Qed.

Lemma readonly_this : readonly this.
Proof. intros w; reflexivity. Qed.

Lemma readonly_bind {A B} (m : M A) (f : A -> M B) :
  readonly m -> (forall a, readonly (f a)) -> readonly (m ≫= f).
Proof.
  intros Hm Hf w. rewrite state_of_bind, Hm.
  destruct (outcome_of (m w)); [apply Hf | reflexivity].
Qed.

Lemma readonly_log level rest : readonly (log level rest).
Proof. intros w. rewrite log_unfold. reflexivity. Qed.

Lemma readonly_read site v key : readonly (read site v key).
Proof. intros w. unfold read. destruct (get_prop v key); reflexivity. Qed.

Lemma readonly_call f args : readonly (call f args).
Proof. intros w. destruct f; reflexivity. Qed.

Lemma readonly_emit event args : readonly (emit event args).
Proof.
  unfold emit. apply readonly_bind; [apply readonly_this|]. intros s.
  apply readonly_bind; [apply readonly_tell|]. intros _.
  destruct (_ && _); [|apply readonly_ret].
  destruct args as [|[] ?]; apply readonly_throw.
Qed.

Lemma readonly_push chunk : readonly (push chunk).
Proof. apply readonly_tell. Qed.

Lemma readonly_if {A} (b : bool) (m1 m2 : M A) :
  readonly m1 -> readonly m2 -> readonly (if b then m1 else m2).
Proof. destruct b; auto. Qed.

Create HintDb readonly.
#[local] Hint Resolve readonly_ret readonly_throw readonly_tell readonly_this
  readonly_log readonly_read readonly_call readonly_emit readonly_push
  readonly_TypeError readonly_Error : readonly.

Ltac readonly_tac :=
  repeat first
    [ apply readonly_bind; [|intros ?]
    | apply readonly_if
    | solve [auto with readonly]
    | match goal with
      | |- readonly (match ?x with _ => _ end) => destruct x
      end ].

Lemma readonly_ABORT env a args : readonly (Association_ABORT_call env a args).
Proof. unfold Association_ABORT_call. readonly_tac. Qed.

Lemma readonly_RECEIVE env a sid : readonly (Association_RECEIVE_call env a sid).
Proof. unfold Association_RECEIVE_call. readonly_tac. Qed.

Lemma readonly_DESTROY endpoint : readonly (Endpoint_DESTROY_call endpoint).
Proof. apply readonly_tell. Qed.

#[local] Hint Resolve readonly_ABORT readonly_RECEIVE readonly_DESTROY : readonly.

Lemma readonly_address : readonly address.
Proof. unfold address. readonly_tac. Qed.

Lemma readonly_final callback : readonly (_final callback).
Proof. unfold _final. readonly_tac. Qed.

Lemma readonly_copy_params assign options params :
  readonly (copy_params assign options params).
Proof. induction params as [|key rest IH]; simpl; readonly_tac. Qed.

Lemma readonly_SCTP_ASSOCINFO options : readonly (SCTP_ASSOCINFO options).
Proof.
  unfold SCTP_ASSOCINFO. readonly_tac; apply readonly_copy_params.
Qed.

Lemma readonly_SCTP_PEER_ADDR_PARAMS options :
  readonly (SCTP_PEER_ADDR_PARAMS options).
Proof.
  unfold SCTP_PEER_ADDR_PARAMS. readonly_tac; apply readonly_copy_params.
Qed.

Lemma readonly_read_ size : readonly (_read size).
Proof. apply readonly_ret. Qed.

Lemma readonly_write chunk options callback :
  readonly (_write chunk options callback).
Proof. unfold _write. readonly_tac. Qed.

Lemma readonly_destroy env err callback : readonly (_destroy env err callback).
Proof.
  unfold _destroy. readonly_tac.
Qed.

Lemma readonly_association_listener env endpoint association ev :
  readonly (association_listener env endpoint association ev).
Proof.
  destruct ev; simpl;
    unfold on_COMMUNICATION_UP, on_DATA_ARRIVE, on_SHUTDOWN_COMPLETE,
      on_COMMUNICATION_LOST, on_COMMUNICATION_ERROR;
    readonly_tac.
Qed.

Lemma readonly_call_listeners {A} (body : A -> M unit) registered :
  (forall h, readonly (body h)) -> readonly (call_listeners body registered).
Proof.
  intros Hb. induction registered as [|h rest IH]; simpl; readonly_tac; auto.
Qed.

Lemma readonly_association_emits env association ev :
  readonly (association_emits env association ev).
Proof.
  intros w. unfold association_emits.
  apply readonly_call_listeners. intros h.
  apply readonly_association_listener.
Qed.

(** ** Traces of the primitive actions *)

Lemma callbacks_app t1 t2 : callbacks (t1 ++ t2) = callbacks t1 ++ callbacks t2.
Proof. apply omap_app. Qed.

Lemma emitted_app t1 t2 : emitted (t1 ++ t2) = emitted t1 ++ emitted t2.
Proof. apply omap_app. Qed.

Lemma sends_app t1 t2 : sends (t1 ++ t2) = sends t1 ++ sends t2.
Proof. apply omap_app. Qed.

Lemma shutdowns_app t1 t2 : shutdowns (t1 ++ t2) = shutdowns t1 ++ shutdowns t2.
Proof. apply omap_app. Qed.

Lemma aborts_app t1 t2 : aborts (t1 ++ t2) = aborts t1 ++ aborts t2.
Proof. apply omap_app. Qed.

Lemma destroyed_endpoints_app t1 t2 :
  destroyed_endpoints (t1 ++ t2) = destroyed_endpoints t1 ++ destroyed_endpoints t2.
Proof. apply omap_app. Qed.

Lemma endpoint_calls_app t1 t2 :
  endpoint_calls (t1 ++ t2) = endpoint_calls t1 ++ endpoint_calls t2.
Proof. apply filter_app. Qed.

(** A log line is none of the calls the properties below count. *)
Lemma log_trace_silent s level rest :
  callbacks (log_trace s level rest) = [] /\
  emitted (log_trace s level rest) = [] /\
  sends (log_trace s level rest) = [] /\
  shutdowns (log_trace s level rest) = [] /\
  aborts (log_trace s level rest) = [] /\
  destroyed_endpoints (log_trace s level rest) = [] /\
  endpoint_calls (log_trace s level rest) = [].
Proof. unfold log_trace. destruct (log_forwards s); repeat split. Qed.

Ltac silence_logs :=
  repeat match goal with
  | |- context [log_trace ?s ?l ?r] =>
      let H := fresh "Hlog" in
      pose proof (log_trace_silent s l r) as H;
      destruct H as (? & ? & ? & ? & ? & ? & ?);
      generalize dependent (log_trace s l r); intros
  end.

(** ** Forceful destroy *)

(** What [_destroy] does on a bound socket, whatever [ABORT] answers. *)
Lemma destroy_bound env w a err callback :
  _association (socket w) = Some a ->
  _destroy env err callback w =
  match ABORT env a [err] with
  | Some e =>
      (w, log_trace (socket w) "fatal" [JStr "destroy"] ++
          [Association_ABORT a [err]], Throw e)
  | None =>
      match callback with
      | JFun _ =>
          (w, log_trace (socket w) "fatal" [JStr "destroy"] ++
              [Association_ABORT a [err]; Callback callback []], Normal tt)
      | _ =>
          (w, log_trace (socket w) "fatal" [JStr "destroy"] ++
              [Association_ABORT a [err]], Throw (JError "TypeError" "callback"))
      end
  end.
Proof.
  intros Hb. unfold _destroy, Association_ABORT_call. mstep. rewrite Hb. mstep.
  destruct (ABORT env a [err]); mstep; [reflexivity|].
  destruct callback; reflexivity.
Qed.

(** C1 (as amended).  On a socket bound to an association, [_destroy(err,
    callback)] calls the association's [ABORT] with [err] once and leaves the
    socket's fields alone; when [ABORT] returns, [callback] is then called
    once, with no argument, and [_destroy] returns; when [ABORT] throws, the
    exception leaves [_destroy] and [callback] is not called. *)
Theorem destroy_completes_when_abort_returns
  (env : Env) (w : World) (a : Association.t) (err : jsval) (f : nat) :
  _association (socket w) = Some a ->
  let r := _destroy env err (JFun f) w in
  state_of r = w /\
  aborts (trace_of r) = [(a, [err])] /\
  match ABORT env a [err] with
  | None => outcome_of r = Normal tt /\ callbacks (trace_of r) = [(JFun f, [])]
  | Some e => outcome_of r = Throw e /\ callbacks (trace_of r) = []
  end.
Proof.
  intros Hb r. subst r. rewrite (destroy_bound env w a err (JFun f) Hb).
  destruct (ABORT env a [err]) as [e|]; cbn [state_of trace_of outcome_of fst snd];
    rewrite ?aborts_app, ?callbacks_app; silence_logs;
    repeat match goal with H : _ = [] |- _ => rewrite H end;
    repeat split; reflexivity.
Qed.

Lemma destroy_completes_when_abort_returns_witness :
  _association (socket sample_bound) = Some sample_peer /\
  outcome_of (_destroy sample_env JNull (JFun 0) sample_bound) = Normal tt /\
  callbacks (trace_of (_destroy sample_env JNull (JFun 0) sample_bound))
  = [(JFun 0, [])].
Proof.
  split; [reflexivity|].
  exact (proj2 (proj2 (destroy_completes_when_abort_returns
    sample_env sample_bound sample_peer JNull 0 eq_refl))).
Defined.

(** C1 (as stated) fails: on a bound socket whose association's [ABORT]
    throws, [_destroy] ends with that exception and never calls its
    callback; and on a socket that was never bound, [_destroy] ends with the
    [TypeError] of calling [ABORT] on an association that is not there, and
    never calls its callback either. *)
Lemma destroy_fails_when_abort_throws :
  let r := _destroy abort_throws_env JNull (JFun 0) sample_bound in
  let u := _destroy sample_env JNull (JFun 0) fresh in
  (outcome_of r = Throw (JError "Error" "abort failed") /\
   callbacks (trace_of r) = [] /\
   ~ (outcome_of r = Normal tt /\ In (Callback (JFun 0) []) (trace_of r))) /\
  (outcome_of u = Throw (JError "TypeError" "this._association") /\
   callbacks (trace_of u) = []).
Proof.
  cbv zeta. split; [|split; reflexivity].
  split; [reflexivity|]. split; [reflexivity|].
  intros [H _]. discriminate H.
Qed.

(** ** The data path: writes *)

Lemma write_unfold chunk options callback w :
  _write chunk options callback w =
  match _association (socket w) with
  | Some a =>
      (w, log_trace (socket w) "debug"
            [JStr "> write"; JObj (sctp_sndrcvinfo (socket w)); chunk] ++
          [Association_SEND a chunk (sctp_sndrcvinfo (socket w)) callback],
       Normal tt)
  | None =>
      (w, log_trace (socket w) "debug"
            [JStr "> write"; JObj (sctp_sndrcvinfo (socket w)); chunk] ++
          trace_of (call callback [JError "Error" "no association established"] w),
       outcome_of (call callback [JError "Error" "no association established"] w))
  end.
Proof.
  unfold _write. mstep.
  destruct (_association (socket w)); mstep; [reflexivity|].
  destruct callback; reflexivity.
Qed.

Lemma default_send_param_unfold options w :
  SCTP_DEFAULT_SEND_PARAM options w =
  (on_socket (assign_sctp_sndrcvinfo
                (Object_assign (sctp_sndrcvinfo (socket w)) options)) w,
   [], Normal tt).
Proof. reflexivity. Qed.

(** C5.  A write of [chunk] on a bound socket makes one [SEND] on the bound
    association, with [chunk], the default send parameters as they are at
    that moment and the write's callback, and does not call the callback
    itself; after [SCTP_DEFAULT_SEND_PARAM(m)] the parameters of the next
    send are [m] merged over the earlier defaults (every field of [m] with
    [m]'s value, every other field as before).  With no association bound
    there is no send, and the callback is called once with the error
    "no association established". *)
Theorem write_forwards_to_association
  (w : World) (chunk encoding : jsval) (f : nat) (m : gmap string jsval) :
  let callback := JFun f in
  let direct := _write chunk encoding callback w in
  let configured :=
    _write chunk encoding callback
      (state_of (SCTP_DEFAULT_SEND_PARAM (JObj m) w)) in
  match _association (socket w) with
  | Some a =>
      sends (trace_of direct) =
        [(a, chunk, sctp_sndrcvinfo (socket w), callback)] /\
      callbacks (trace_of direct) = [] /\
      outcome_of direct = Normal tt /\
      (exists info,
         sends (trace_of configured) = [(a, chunk, info, callback)] /\
         (forall k v, m !! k = Some v -> info !! k = Some v) /\
         (forall k, m !! k = None ->
                    info !! k = sctp_sndrcvinfo (socket w) !! k))
  | None =>
      sends (trace_of direct) = [] /\
      callbacks (trace_of direct) =
        [(callback, [JError "Error" "no association established"])] /\
      outcome_of direct = Normal tt
  end.
Proof.
  intros callback direct configured. subst direct configured.
  rewrite !write_unfold, default_send_param_unfold.
  cbn [state_of fst socket on_socket assign_sctp_sndrcvinfo _association
       sctp_sndrcvinfo].
  destruct (_association (socket w)) as [a|];
    cbn [trace_of outcome_of fst snd call callback tell];
    rewrite ?sends_app, ?callbacks_app; silence_logs;
    repeat match goal with H : _ = [] |- _ => rewrite H end.
  - repeat split.
    exists (Object_assign (sctp_sndrcvinfo (socket w)) (JObj m)).
    split; [reflexivity|]. unfold Object_assign; cbn [own_enumerable].
    split.
    + intros k v Hk. apply lookup_union_Some_l. exact Hk.
    + intros k Hk. apply lookup_union_r. exact Hk.
  - repeat split.
Qed.

(** The example of the description: with [stream_id: 2] among the defaults,
    [SCTP_DEFAULT_SEND_PARAM({protocol: 7})] makes the next send carry
    [protocol: 7] next to it. *)
Example write_after_protocol_7 :
  let w := (run [(sample_env, Call_SCTP_DEFAULT_SEND_PARAM
                                (JObj {[ "stream_id" := JNum 2 ]}));
                 (sample_env, Call_SCTP_DEFAULT_SEND_PARAM
                                (JObj {[ "protocol" := JNum 7 ]}))]
                sample_bound).1 in
  sends (trace_of (_write (JStr "X") JUndefined (JFun 0) w)) =
  [(sample_peer, JStr "X",
    {[ "protocol" := JNum 7; "stream_id" := JNum 2 ]}, JFun 0)].
Proof. vm_compute. reflexivity. Qed.

(** ** Half-close *)

(** C9.  [_final(callback)] hands its callback over exactly when an
    association is bound: then the callback goes to the association's
    [SHUTDOWN], once, as its completion callback; with no association bound
    [_final] does nothing at all, so the callback is never called.  In both
    cases [_final] itself returns and leaves the socket as it was. *)
Theorem final_callback_iff_bound (w : World) (callback : jsval) :
  let r := _final callback w in
  (hands_over (trace_of r) callback <-> is_Some (_association (socket w))) /\
  (_association (socket w) = None -> trace_of r = []) /\
  (forall a, _association (socket w) = Some a ->
             trace_of r = [Association_SHUTDOWN a callback]) /\
  state_of r = w /\ outcome_of r = Normal tt.
Proof.
  cbv zeta. unfold _final. mstep.
  destruct (_association (socket w)) as [a|] eqn:Hb; mstep.
  - split; [|repeat split; [discriminate | congruence]].
    split; [eauto|]. intros _. right; left. exists a. left. reflexivity.
  - split; [|repeat split; discriminate].
    split; [|intros [? H]; discriminate H].
    intros [[? []]|[[? []]|(? & ? & ? & [])]].
Qed.

(** ** Connection establishment: the guard and the validation *)

(** Once [p2p] is set, [connect] returns at its first line. *)
Lemma connect_again env options connectListener w :
  p2p (socket w) = true ->
  connect env options connectListener w = (w, [], Normal tt).
Proof. intros Hp. unfold connect. mstep. rewrite Hp. reflexivity. Qed.

Lemma connect_options_required env options connectListener w :
  p2p (socket w) = false ->
  typeof options <> "object"%string ->
  connect env options connectListener w =
  (on_socket (assign_p2p true) w, [], Throw (JError "Error" "options required")).
Proof.
  intros Hp Ht. unfold connect. mstep. rewrite Hp. mstep.
  apply String.eqb_neq in Ht. rewrite Ht. reflexivity.
Qed.

Lemma connect_port_required env options connectListener w port :
  p2p (socket w) = false ->
  typeof options = "object"%string ->
  get_prop options "port" = Some port ->
  ToInt32 env port = 0 ->
  connect env options connectListener w =
  (on_socket (assign_p2p true) w,
   log_trace (socket w) "debug" [JStr "connect"; options],
   Throw (JError "Error" "port is required")).
Proof.
  intros Hp Ht Hg Hz. unfold connect. mstep. rewrite Hp. mstep.
  rewrite Ht. change (negb ("object" =? "object")%string) with false.
  cbv iota. mstep. unfold read. rewrite Hg. mstep. rewrite Hz. cbn [Z.eqb].
  rewrite app_nil_r. reflexivity.
Qed.

(** [typeof null] is ['object']: [connect(null)] passes the first test and
    fails at [options.port]. *)
Lemma connect_null env connectListener w :
  p2p (socket w) = false ->
  connect env JNull connectListener w =
  (on_socket (assign_p2p true) w,
   log_trace (socket w) "debug" [JStr "connect"; JNull],
   Throw (JError "TypeError" "options")).
Proof.
  intros Hp. unfold connect. mstep. rewrite Hp. mstep.
  change (negb (typeof JNull =? "object")%string) with false.
  cbv iota. mstep. cbn [read get_prop]. mstep.
  rewrite app_nil_r. reflexivity.
Qed.

(** C3 (as amended).  A first [connect(options)] whose [options] is not of
    type ['object'] throws the [Error] "options required"; one whose
    [options] is of that type and whose [options.port] is missing or coerces
    to zero throws the [Error] "port is required".  Both throw before any
    call on [Endpoint] and before any event; of the socket's fields only the
    one-shot flag [p2p] has changed, which is now set. *)
Theorem connect_rejects_bad_options
  (env : Env) (w : World) (options connectListener : jsval) :
  p2p (socket w) = false ->
  typeof options <> "object"%string \/
  (exists port, get_prop options "port" = Some port /\ ToInt32 env port = 0) ->
  let r := connect env options connectListener w in
  (typeof options <> "object"%string ->
   outcome_of r = Throw (JError "Error" "options required")) /\
  (typeof options = "object"%string ->
   outcome_of r = Throw (JError "Error" "port is required")) /\
  (exists message,
     outcome_of r = Throw (JError "Error" message) /\
     (message = "options required" \/ message = "port is required")%string) /\
  endpoint_calls (trace_of r) = [] /\
  emitted (trace_of r) = [] /\
  state_of r = on_socket (assign_p2p true) w.
Proof.
  intros Hp Hbad r. subst r.
  destruct (decide (typeof options = "object"%string)) as [Ht|Ht].
  - destruct Hbad as [Hn|(port & Hg & Hz)]; [contradiction|].
    rewrite (connect_port_required env options connectListener w port Hp Ht Hg Hz).
    cbn [state_of trace_of outcome_of fst snd]. silence_logs.
    split; [intros Hn; contradiction|]. split; [reflexivity|].
    repeat split; eauto.
  - rewrite (connect_options_required env options connectListener w Hp Ht).
    split; [reflexivity|]. split; [intros Ho; contradiction|].
    repeat split; eauto.
Qed.

Lemma connect_rejects_bad_options_witness :
  p2p (socket fresh) = false /\
  (exists port, get_prop (JObj ∅) "port" = Some port /\ ToInt32 sample_env port = 0) /\
  endpoint_calls (trace_of (connect sample_env (JObj ∅) JUndefined fresh)) = [] /\
  state_of (connect sample_env (JObj ∅) JUndefined fresh) =
    on_socket (assign_p2p true) fresh.
Proof.
  assert (Hbad : exists port, get_prop (JObj ∅) "port" = Some port /\
                              ToInt32 sample_env port = 0)
    by (exists JUndefined; split; reflexivity).
  split; [reflexivity|]. split; [exact Hbad|].
  pose proof (connect_rejects_bad_options sample_env fresh (JObj ∅) JUndefined
                eq_refl (or_intror Hbad)) as H.
  cbv zeta in H. split; [apply H | apply H].
Defined.

(** C3 (as stated) fails: [connect()] without options on a fresh socket
    throws, and has changed the socket by then: [p2p] is set, so that the
    well-formed [connect] that follows is ignored. *)
Lemma connect_without_options_sets_p2p :
  let r := connect sample_env JUndefined JUndefined fresh in
  outcome_of r = Throw (JError "Error" "options required") /\
  p2p (socket fresh) = false /\
  p2p (socket (state_of r)) = true /\
  state_of r <> fresh /\
  connect sample_env active_options JUndefined (state_of r) =
    (state_of r, [], Normal tt).
Proof.
  cbv zeta. split; [reflexivity|]. split; [reflexivity|].
  split; [reflexivity|]. split; [|reflexivity].
  intros H. apply (f_equal (fun w => p2p (socket w))) in H. discriminate H.
Qed.

(** ** Connection establishment: the endpoint *)

(** A [connect] that passes the validation goes on to [Endpoint.INITIALIZE]
    and to the rest of the method.  Only a plain object can hold a port that
    does not coerce to zero. *)
Lemma connect_proceeds env fields connectListener w :
  p2p (socket w) = false ->
  let options := JObj fields in
  let field key := default JUndefined (fields !! key) in
  let remotePort := ToInt32 env (field "port"%string) in
  remotePort <> 0 ->
  let init := initOptions env (field "MIS"%string) (field "OS"%string)
                (field "localAddress"%string) (field "localPort"%string) in
  let assoc := assocOptions remotePort (field "host"%string) in
  let w1 := on_socket (assign_p2p true) w in
  let rest := connect_endpoint env options connectListener init assoc
                (INITIALIZE env init) w1 in
  connect env options connectListener w =
  (state_of rest,
   log_trace (socket w) "debug" [JStr "connect"; options] ++
   log_trace (socket w) "debug"
     [JStr "init & assoc options"; JObj init; JObj assoc] ++
   [Endpoint_INITIALIZE init] ++ trace_of rest,
   outcome_of rest).
Proof.
  intros Hp options field remotePort Hport init assoc w1 rest.
  subst options. unfold connect. mstep. rewrite Hp. mstep.
  change (negb (typeof (JObj fields) =? "object")%string) with false.
  cbv iota. mstep. cbn [read get_prop]. mstep.
  fold (field "port"%string). fold remotePort.
  destruct (remotePort =? 0) eqn:Hz; [apply Z.eqb_eq in Hz; contradiction|].
  mstep. cbn [read get_prop]. mstep. reflexivity.
Qed.

(** When [Endpoint.INITIALIZE] has answered nothing, the rest of [connect]
    emits ['error'] with a message that ends in the requested local port
    (or in "undefined" when none was requested), and then throws: the
    emitter's own exception when nobody listens for ['error'], and otherwise
    the [TypeError] of using the endpoint that is not there. *)
Lemma connect_endpoint_none env fields connectListener init assoc w :
  let r := connect_endpoint env (JObj fields) connectListener init assoc None w in
  emitted (trace_of r) =
    [("error"%string,
      [JError "Error"
         ("unable to allocate port " +:+
          ToString (default JUndefined (init !! "localPort")))])] /\
  endpoint_calls (trace_of r) = [] /\
  outcome_of r =
    Throw (if has_listener "error" (socket w)
           then JError "TypeError" "endpoint"
           else JError "Error"
                  ("unable to allocate port " +:+
                   ToString (default JUndefined (init !! "localPort")))).
Proof.
  cbv zeta. unfold connect_endpoint, emit. mstep.
  cbn [String.eqb Ascii.eqb Bool.eqb andb].
  destruct (has_listener "error" (socket w)) eqn:Hl; cbn [negb]; mstep;
    [|repeat split].
  destruct (String.eqb (typeof connectListener) "function"); unfold on; mstep;
    cbn [read get_prop]; mstep;
    destruct (truthy _); mstep; repeat split.
Qed.

(** C4 (the code at the failing input).  On a socket with an ['error']
    listener, [connect({port: 5000, localPort: 6000})] when
    [Endpoint.INITIALIZE] yields no endpoint emits ['error'] with the
    message "unable to allocate port 6000" and then throws a [TypeError]
    out of [connect], where the claim has [connect] return. *)
Theorem connect_throws_after_allocation_failure :
  let r := connect no_port_env active_options JUndefined sample_listened in
  emitted (trace_of r) =
    [("error"%string, [JError "Error" "unable to allocate port 6000"])] /\
  outcome_of r = Throw (JError "TypeError" "endpoint") /\
  outcome_of r <> Normal tt.
Proof.
  cbv zeta. split; [vm_compute; reflexivity|].
  split; [vm_compute; reflexivity|]. vm_compute. discriminate.
Qed.

(** The same holds of every [connect] that reaches an [Endpoint.INITIALIZE]
    which yields nothing: it does not return. *)
Lemma connect_allocation_failure_always_throws env fields connectListener w :
  p2p (socket w) = false ->
  let field key := default JUndefined (fields !! key) in
  ToInt32 env (field "port"%string) <> 0 ->
  let init := initOptions env (field "MIS"%string) (field "OS"%string)
                (field "localAddress"%string) (field "localPort"%string) in
  INITIALIZE env init = None ->
  let r := connect env (JObj fields) connectListener w in
  emitted (trace_of r) =
    [("error"%string,
      [JError "Error"
         ("unable to allocate port " +:+
          ToString (default JUndefined (init !! "localPort")))])] /\
  exists e, outcome_of r = Throw e.
Proof.
  intros Hp field Hport init Hnone r. subst r init field. cbv beta in *.
  rewrite (connect_proceeds env fields connectListener w Hp Hport).
  cbv beta zeta. rewrite Hnone.
  cbn [state_of trace_of outcome_of fst snd].
  match goal with
  | |- context [connect_endpoint env ?o ?l ?i ?a None ?w1] =>
      pose proof (connect_endpoint_none env fields l i a w1) as H
  end.
  cbv zeta in H. destruct H as (He & _ & Ho).
  rewrite !emitted_app, He, Ho. silence_logs.
  repeat match goal with H : _ = [] |- _ => rewrite H end.
  split; [reflexivity | eauto].
Qed.

(** ** Binding *)

Lemma construct_some endpoint a w :
  _construct endpoint (Some a) w =
  (bound_to endpoint a w, construct_trace a, Normal tt).
Proof. reflexivity. Qed.

Lemma construct_none endpoint w :
  _construct endpoint None w =
  (on_socket (assign_local endpoint None) w, [],
   Throw (JError "TypeError" "association.remotePort")).
Proof. reflexivity. Qed.

(** The passive filter, at a store. *)
Lemma filter_unfold env endpoint a w :
  on_endpoint_COMMUNICATION_UP env endpoint a w =
  if peer_matches (socket w) a then
    (bound_to endpoint a w,
     log_trace (socket w) "trace" [JStr "remote peer2peer socket connected"] ++
     construct_trace a ++ [Emit "connect" []],
     Normal tt)
  else
    (w,
     log_trace (socket w) "warn"
       [JStr "remote peer2peer socket rejected port";
        JNum (Association.remotePort a)] ++
     [Association_ABORT a []],
     match ABORT env a [] with Some e => Throw e | None => Normal tt end).
Proof.
  unfold on_endpoint_COMMUNICATION_UP. mstep.
  destruct (peer_matches (socket w) a).
  - mstep. rewrite construct_some. mstep. unfold emit. mstep.
    cbn [String.eqb Ascii.eqb Bool.eqb andb]. mstep. reflexivity.
  - unfold Association_ABORT_call. mstep.
    destruct (ABORT env a []); reflexivity.
Qed.

(** The store [connect] leaves, from the moment it holds the answer of
    [Endpoint.INITIALIZE]: [connect]'s listener may have been added; then
    nothing more has happened, or the filter is registered on the endpoint,
    or [_construct] has run. *)
Lemma connect_endpoint_state env options connectListener init assoc ep w :
  exists w2,
    (w2 = w \/ w2 = on_socket (add_listener "connect" connectListener) w) /\
    let r := connect_endpoint env options connectListener init assoc ep w in
    (state_of r = w2 \/
     (exists e, state_of r = register_endpoint_handler e w2) \/
     (exists e oa, state_of r = state_of (_construct e oa w2))).
Proof.
  unfold connect_endpoint.
  rewrite state_of_bind.
  assert (Hro : readonly
    (if ep is None
     then emit "error"
            [JError "Error"
               ("unable to allocate port " +:+
                ToString (default JUndefined (init !! "localPort")))]
     else ret tt)) by (destruct ep; auto with readonly).
  rewrite Hro. clear Hro.
  destruct (outcome_of _); [|exists w; auto].
  rewrite state_of_bind.
  set (w2 := state_of
    ((if String.eqb (typeof connectListener) "function"
      then on "connect" connectListener else ret tt) w)).
  assert (Hw2 : w2 = w \/ w2 = on_socket (add_listener "connect" connectListener) w)
    by (subst w2; destruct (String.eqb _ _); auto).
  exists w2. split; [exact Hw2|]. cbv zeta.
  destruct (outcome_of _); [|auto].
  rewrite state_of_bind, readonly_read.
  destruct (outcome_of _) as [listen|]; [|auto].
  destruct (truthy listen), ep as [e|]; auto.
  - right; left. exists e. reflexivity.
  - right; right. exists e, (ASSOCIATE env e assoc).
    rewrite state_of_bind. reflexivity.
Qed.

Lemma connect_state env options connectListener w :
  p2p (socket w) = false ->
  let w1 := on_socket (assign_p2p true) w in
  exists w2,
    (w2 = w1 \/ w2 = on_socket (add_listener "connect" connectListener) w1) /\
    let r := connect env options connectListener w in
    (state_of r = w2 \/
     (exists e, state_of r = register_endpoint_handler e w2) \/
     (exists e oa, state_of r = state_of (_construct e oa w2))).
Proof.
  intros Hp w1.
  assert (Hstop : state_of (connect env options connectListener w) = w1 ->
    exists w2,
      (w2 = w1 \/ w2 = on_socket (add_listener "connect" connectListener) w1) /\
      let r := connect env options connectListener w in
      (state_of r = w2 \/
       (exists e, state_of r = register_endpoint_handler e w2) \/
       (exists e oa, state_of r = state_of (_construct e oa w2))))
    by (intros H; exists w1; auto).
  destruct (decide (typeof options = "object"%string)) as [Ht|Ht];
    [|apply Hstop; rewrite connect_options_required by assumption; reflexivity].
  destruct (get_prop options "port") as [port|] eqn:Hg.
  - destruct (decide (ToInt32 env port = 0)) as [Hz|Hz];
      [apply Hstop; erewrite connect_port_required by eassumption; reflexivity|].
    destruct options; try discriminate Ht; try discriminate Hg;
      try (injection Hg as <-; contradiction Hz; reflexivity).
    injection Hg as <-.
    rewrite (connect_proceeds env fields connectListener w Hp Hz).
    cbv zeta. cbn [state_of fst].
    apply connect_endpoint_state.
  - apply Hstop. destruct options; try discriminate Hg; try discriminate Ht.
    rewrite connect_null by assumption. reflexivity.
Qed.

(** ** The one-shot flag *)

Lemma call_listeners_invariant {A} (P : World -> Prop) (body : A -> M unit)
  registered w :
  (forall h w, P w -> P (state_of (body h w))) ->
  P w -> P (state_of (call_listeners body registered w)).
Proof.
  intros Hbody. revert w.
  induction registered as [|h rest IH]; intros w Hw; [exact Hw|].
  cbn [call_listeners]. rewrite state_of_bind.
  destruct (outcome_of (body h w)); [apply IH|]; apply Hbody; exact Hw.
Qed.

Lemma filter_keeps_p2p env endpoint a w :
  p2p (socket (state_of (on_endpoint_COMMUNICATION_UP env endpoint a w))) =
  p2p (socket w).
Proof. rewrite filter_unfold. destruct (peer_matches _ _); reflexivity. Qed.

(** No operation clears [p2p]. *)
Lemma step_keeps_p2p env op w :
  p2p (socket w) = true -> p2p (socket (state_of (step env op w))) = true.
Proof.
  intros Hp.
  assert (Hro : forall m : M unit, readonly m -> p2p (socket (state_of (m w))) = true)
    by (intros m Hm; rewrite Hm; exact Hp).
  destruct op; cbn [step].
  - apply Hro, readonly_bind; [apply readonly_address|].
    intros ?; apply readonly_ret.
  - rewrite connect_again by exact Hp. exact Hp.
  - apply Hro, readonly_final.
  - apply Hro, readonly_SCTP_ASSOCINFO.
  - exact Hp.
  - apply Hro, readonly_SCTP_PEER_ADDR_PARAMS.
  - exact Hp.
  - apply Hro, readonly_write.
  - apply Hro, readonly_destroy.
  - exact Hp.
  - exact Hp.
  - exact Hp.
  - unfold endpoint_emits.
    apply (call_listeners_invariant (fun w => p2p (socket w) = true));
      [|exact Hp].
    intros h w' Hw'. rewrite filter_keeps_p2p. exact Hw'.
  - apply Hro, readonly_association_emits.
Qed.

Lemma run_keeps_p2p ops w :
  p2p (socket w) = true -> p2p (socket (run ops w).1) = true.
Proof.
  revert w. induction ops as [|[env op] rest IH]; intros w Hp; [exact Hp|].
  cbn [run fst]. apply IH, step_keeps_p2p, Hp.
Qed.

(** Every call of [connect] leaves [p2p] set, however it ends. *)
Lemma connect_sets_p2p env options connectListener w :
  p2p (socket (state_of (connect env options connectListener w))) = true.
Proof.
  destruct (p2p (socket w)) eqn:Hp.
  - rewrite connect_again by exact Hp. exact Hp.
  - destruct (connect_state env options connectListener w Hp)
      as (w2 & Hw2 & Hr). cbv zeta in Hr.
    assert (H2 : p2p (socket w2) = true) by (destruct Hw2; subst w2; reflexivity).
    destruct Hr as [->|[(e & ->)|(e & [a|] & ->)]]; exact H2.
Qed.

(** C8.  After a first call of [connect], whatever its arguments, whatever
    its collaborators answered, however it ended and whatever has happened
    on the socket since, a call of [connect] returns at once: it makes no
    call (no [Endpoint.INITIALIZE] in particular), emits nothing, throws
    nothing and leaves the store as it found it. *)
Theorem connect_second_call_noop
  (env1 env2 : Env) (options1 listener1 options2 listener2 : jsval)
  (ops : list (Env * Op)) (w : World) :
  let after_first := state_of (connect env1 options1 listener1 w) in
  let later := (run ops after_first).1 in
  connect env2 options2 listener2 later = (later, [], Normal tt).
Proof.
  cbv zeta. apply connect_again, run_keeps_p2p, connect_sets_p2p.
Qed.

(** ** The invariant *)

Lemma consistent_new options : consistent (new_Socket options).1.
Proof.
  split; cbn.
  - auto.
  - intros a H. discriminate H.
  - lia.
Qed.

(** Assignments to fields the invariant does not mention keep it. *)
Lemma consistent_on_socket (f : Socket -> Socket) w :
  (forall s, p2p (f s) = p2p s) ->
  (forall s, _association (f s) = _association s) ->
  (forall s, _endpoint (f s) = _endpoint s) ->
  (forall s, counters (f s) = counters s) ->
  consistent w -> consistent (on_socket f w).
Proof.
  intros Hp Ha He Hc [H1 H2 H3].
  split; cbn [socket on_socket endpoint_handlers association_handlers];
    rewrite ?Hp, ?Ha, ?He, ?Hc; assumption.
Qed.

Lemma consistent_bound_to endpoint a w :
  p2p (socket w) = true -> consistent w -> consistent (bound_to endpoint a w).
Proof.
  intros Hp [H1 H2 H3]. split.
  - cbn. rewrite Hp. discriminate.
  - cbn. intros a' [= <-]. split; [reflexivity|].
    exists endpoint. split; [reflexivity|].
    apply in_or_app. right. left. reflexivity.
  - exact H3.
Qed.

Lemma consistent_filter env endpoint a w :
  p2p (socket w) = true -> consistent w ->
  consistent (state_of (on_endpoint_COMMUNICATION_UP env endpoint a w)).
Proof.
  intros Hp Hw. rewrite filter_unfold.
  destruct (peer_matches _ _); [apply consistent_bound_to|]; assumption.
Qed.

Lemma consistent_connect env options connectListener w :
  consistent w -> consistent (state_of (connect env options connectListener w)).
Proof.
  intros Hw. destruct (p2p (socket w)) eqn:Hp.
  - rewrite connect_again by exact Hp. exact Hw.
  - destruct (connect_state env options connectListener w Hp)
      as (w2 & Hw2 & Hr). cbv zeta in Hr.
    destruct (unconnected w Hw Hp) as [Hnone Hnil].
    assert (H2 : consistent w2 /\ p2p (socket w2) = true /\
                 _association (socket w2) = None /\ endpoint_handlers w2 = []).
    { destruct Hw2; subst w2; (split; [|auto]);
        (split; cbn;
         [discriminate | rewrite Hnone; discriminate | rewrite Hnil; cbn; lia]). }
    destruct H2 as (Hc2 & Hp2 & Hn2 & Hh2).
    destruct Hr as [->|[(e & ->)|(e & [a|] & ->)]].
    + exact Hc2.
    + split; cbn.
      * rewrite Hp2. discriminate.
      * rewrite Hn2. discriminate.
      * rewrite Hh2. cbn. lia.
    + rewrite construct_some. apply consistent_bound_to; assumption.
    + rewrite construct_none. split; cbn.
      * rewrite Hp2. discriminate.
      * discriminate.
      * rewrite Hh2. cbn. lia.
Qed.

Lemma step_consistent env op w :
  consistent w -> consistent (state_of (step env op w)).
Proof.
  intros Hw.
  assert (Hro : forall m : M unit, readonly m -> consistent (state_of (m w)))
    by (intros m Hm; rewrite Hm; exact Hw).
  destruct op; cbn [step].
  - apply Hro, readonly_bind; [apply readonly_address|].
    intros ?; apply readonly_ret.
  - apply consistent_connect, Hw.
  - apply Hro, readonly_final.
  - apply Hro, readonly_SCTP_ASSOCINFO.
  - rewrite default_send_param_unfold.
    apply consistent_on_socket; auto.
  - apply Hro, readonly_SCTP_PEER_ADDR_PARAMS.
  - exact Hw.
  - apply Hro, readonly_write.
  - apply Hro, readonly_destroy.
  - apply (consistent_on_socket (add_listener event listener)); auto.
  - apply (consistent_on_socket (assign_port v)); auto.
  - apply (consistent_on_socket (assign_host v)); auto.
  - unfold endpoint_emits.
    destruct (p2p (socket w)) eqn:Hp.
    + apply (call_listeners_invariant
               (fun w => consistent w /\ p2p (socket w) = true)); [|auto].
      intros h w' [Hc' Hp']. split; [apply consistent_filter; assumption|].
      rewrite filter_keeps_p2p. exact Hp'.
    + unfold handlers_of_endpoint.
      destruct (unconnected w Hw Hp) as [_ ->]. exact Hw.
  - apply Hro, readonly_association_emits.
Qed.

Lemma reachable_consistent w : reachable w -> consistent w.
Proof.
  induction 1 as [options|env op w _ IH];
    [apply consistent_new | apply step_consistent, IH].
Qed.

Lemma reachable_run ops w : reachable w -> reachable (run ops w).1.
Proof.
  revert w. induction ops as [|[env op] rest IH]; intros w Hw; [exact Hw|].
  cbn [run fst]. apply IH, reachable_step, Hw.
Qed.

(** A bound socket has been through [connect]. *)
Lemma bound_is_connected w a :
  consistent w -> _association (socket w) = Some a -> p2p (socket w) = true.
Proof.
  intros Hw Ha. destruct (p2p (socket w)) eqn:Hp; [reflexivity|].
  destruct (unconnected w Hw Hp) as [Hn _]. congruence.
Qed.

(** No operation unbinds a socket. *)
Lemma step_keeps_bound env op w :
  consistent w -> is_Some (_association (socket w)) ->
  is_Some (_association (socket (state_of (step env op w)))).
Proof.
  intros Hw [a Ha].
  assert (Hp := bound_is_connected w a Hw Ha).
  assert (Hro : forall m : M unit, readonly m ->
                  is_Some (_association (socket (state_of (m w)))))
    by (intros m Hm; rewrite Hm; eauto).
  destruct op; cbn [step].
  - apply Hro, readonly_bind; [apply readonly_address|].
    intros ?; apply readonly_ret.
  - rewrite connect_again by exact Hp. eauto.
  - apply Hro, readonly_final.
  - apply Hro, readonly_SCTP_ASSOCINFO.
  - exists a; exact Ha.
  - apply Hro, readonly_SCTP_PEER_ADDR_PARAMS.
  - exists a; exact Ha.
  - apply Hro, readonly_write.
  - apply Hro, readonly_destroy.
  - exists a; exact Ha.
  - exists a; exact Ha.
  - exists a; exact Ha.
  - unfold endpoint_emits.
    apply (call_listeners_invariant
             (fun w => is_Some (_association (socket w)))); [|eauto].
    intros h w' Hw'. rewrite filter_unfold.
    destruct (peer_matches _ _); [cbn; eauto | exact Hw'].
  - apply Hro, readonly_association_emits.
Qed.

(** ** The counters *)

Lemma run_keeps_bound ops w :
  consistent w -> is_Some (_association (socket w)) ->
  consistent (run ops w).1 /\ is_Some (_association (socket (run ops w).1)).
Proof.
  revert w. induction ops as [|[env op] rest IH]; intros w Hw Hb; [auto|].
  cbn [run fst]. apply IH; [apply step_consistent | apply step_keeps_bound]; auto.
Qed.

(** Outside [_construct] no operation assigns the counters: a step leaves
    them as they were, or it has bound the socket and they are zero. *)
Lemma step_counters env op w :
  let w' := state_of (step env op w) in
  counters (socket w') = counters (socket w) \/
  counters (socket w') = (JNum 0, JNum 0, JNum 0).
Proof.
  cbv zeta.
  assert (Hro : forall m : M unit, readonly m ->
    counters (socket (state_of (m w))) = counters (socket w) \/
    counters (socket (state_of (m w))) = (JNum 0, JNum 0, JNum 0))
    by (intros m Hm; rewrite Hm; auto).
  destruct op; cbn [step].
  - apply Hro, readonly_bind; [apply readonly_address|].
    intros ?; apply readonly_ret.
  - destruct (p2p (socket w)) eqn:Hp; [rewrite connect_again by exact Hp; auto|].
    destruct (connect_state env options connectListener w Hp)
      as (w2 & Hw2 & Hr). cbv zeta in Hr.
    assert (H2 : counters (socket w2) = counters (socket w))
      by (destruct Hw2; subst w2; reflexivity).
    destruct Hr as [->|[(e & ->)|(e & [a|] & ->)]]; auto.
  - apply Hro, readonly_final.
  - apply Hro, readonly_SCTP_ASSOCINFO.
  - auto.
  - apply Hro, readonly_SCTP_PEER_ADDR_PARAMS.
  - auto.
  - apply Hro, readonly_write.
  - apply Hro, readonly_destroy.
  - auto.
  - auto.
  - auto.
  - unfold endpoint_emits.
    apply (call_listeners_invariant (fun w' =>
      counters (socket w') = counters (socket w) \/
      counters (socket w') = (JNum 0, JNum 0, JNum 0))); [|auto].
    intros h w' Hw'. rewrite filter_unfold.
    destruct (peer_matches _ _); [right; reflexivity | exact Hw'].
  - apply Hro, readonly_association_emits.
Qed.

(** C10.  [_construct] sets [bufferSize], [bytesRead] and [bytesWritten] to
    0, and from then on they stay there: on a bound socket the three counters
    are 0, and after any further operations (writes, data arrivals, lifecycle
    events, anything else) the socket is still bound and they are still 0. *)
Theorem counters_stay_zero (w : World) (ops : list (Env * Op)) :
  reachable w ->
  is_Some (_association (socket w)) ->
  (forall endpoint association w0,
     counters (socket (state_of (_construct endpoint association w0))) =
     (JNum 0, JNum 0, JNum 0)) /\
  counters (socket w) = (JNum 0, JNum 0, JNum 0) /\
  let w' := (run ops w).1 in
  is_Some (_association (socket w')) /\
  counters (socket w') = (JNum 0, JNum 0, JNum 0).
Proof.
  intros Hr Hb. apply reachable_consistent in Hr.
  split; [intros e [a|] w0; reflexivity|].
  split; [destruct Hb as [a Ha]; apply (bound_state w Hr a Ha)|].
  cbv zeta. destruct (run_keeps_bound ops w Hr Hb) as [Hc' Hb'].
  split; [exact Hb'|]. destruct Hb' as [a' Ha'].
  apply (bound_state _ Hc' a' Ha').
Qed.

Lemma reachable_sample_bound : reachable sample_bound.
Proof.
  apply (reachable_step sample_env (Call_connect active_options JUndefined)).
  apply (reachable_new JUndefined).
Qed.

Lemma counters_stay_zero_witness :
  reachable sample_bound /\
  is_Some (_association (socket sample_bound)) /\
  counters (socket
    (run [(sample_env, Call_write (JStr "X") JUndefined (JFun 0));
          (sample_env, Association_emits sample_peer (DATA_ARRIVE (JNum 0)));
          (sample_env, Association_emits sample_peer SHUTDOWN_COMPLETE)]
         sample_bound).1) = (JNum 0, JNum 0, JNum 0).
Proof.
  assert (Hb : is_Some (_association (socket sample_bound)))
    by (exists sample_peer; reflexivity).
  split; [exact reachable_sample_bound|]. split; [exact Hb|].
  exact (proj2 (proj2 (proj2 (counters_stay_zero sample_bound _
           reachable_sample_bound Hb)))).
Defined.

(** ** Teardown *)

Lemma call_listeners_trace {A} (body : A -> M unit) (tr : A -> list Event)
  registered w :
  (forall h, body h w = (w, tr h, Normal tt)) ->
  call_listeners body registered w = (w, concat (map tr registered), Normal tt).
Proof.
  intros Hbody. induction registered as [|h rest IH]; [reflexivity|].
  cbn [call_listeners map concat]. rewrite bind_unfold, Hbody.
  cbn [state_of trace_of outcome_of fst snd]. rewrite IH. reflexivity.
Qed.

Lemma shutdown_complete_unfold endpoint w :
  on_SHUTDOWN_COMPLETE endpoint w =
  (w, teardown_trace (socket w) "debug" [JStr "socket ended"] "end" endpoint,
   Normal tt).
Proof.
  unfold on_SHUTDOWN_COMPLETE, teardown_trace, Endpoint_DESTROY_call, emit.
  mstep. destruct (p2p (socket w)); mstep; reflexivity.
Qed.


(** What a teardown event leaves in the trace, with [registered] the
    listeners of the association. *)
Lemma teardown_emitted s level line event
  (registered : list (Association.t * Endpoint.t)) :
  emitted (concat (map (fun h => teardown_trace s level line event h.2)
                       registered)) =
  map (fun _ => (event, [])) registered.
Proof.
  induction registered as [|h rest IH]; [reflexivity|].
  cbn [map concat]. rewrite emitted_app, IH. unfold teardown_trace.
  rewrite !emitted_app. silence_logs.
  repeat match goal with H : _ = [] |- _ => rewrite H end.
  destruct (p2p s); reflexivity.
Qed.

Lemma teardown_destroyed s level line event
  (registered : list (Association.t * Endpoint.t)) :
  p2p s = true ->
  destroyed_endpoints
    (concat (map (fun h => teardown_trace s level line event h.2) registered)) =
  map snd registered.
Proof.
  intros Hp. induction registered as [|h rest IH]; [reflexivity|].
  cbn [map concat]. rewrite destroyed_endpoints_app, IH. unfold teardown_trace.
  rewrite !destroyed_endpoints_app, Hp. silence_logs.
  repeat match goal with H : _ = [] |- _ => rewrite H end.
  reflexivity.
Qed.

Lemma registered_listener a e w :
  In (a, e) (association_handlers w) -> In (a, e) (handlers_of_association a w).
Proof.
  intros Hin. apply list_elem_of_In, list_elem_of_filter.
  split; [reflexivity | apply list_elem_of_In, Hin].
Qed.



(** ** Passive mode *)

(** In a store the socket can be in, the endpoint [connect] registered on
    carries that one listener. *)
Lemma endpoint_emits_filter env endpoint a w :
  consistent w -> In endpoint (endpoint_handlers w) ->
  endpoint_emits env endpoint a w = on_endpoint_COMMUNICATION_UP env endpoint a w.
Proof.
  intros Hw Hin. unfold endpoint_emits, handlers_of_endpoint.
  pose proof (one_filter w Hw) as Hlen.
  destruct (endpoint_handlers w) as [|e [|? ?]]; [destruct Hin| |cbn in Hlen; lia].
  destruct Hin as [->|[]].
  rewrite filter_cons_True by reflexivity. rewrite filter_nil.
  cbn [call_listeners]. rewrite bind_unfold.
  destruct (on_endpoint_COMMUNICATION_UP env endpoint a w) as [[w' t'] [[]|x]];
    cbn [state_of trace_of outcome_of fst snd ret]; rewrite ?app_nil_r;
    reflexivity.
Qed.

Lemma peer_matches_spec s a P H :
  port s = JNum P -> host s = JStr H ->
  peer_matches s a = true <->
  Association.remotePort a = P /\ Association.remoteAddress a = H.
Proof.
  intros Hport Hhost. unfold peer_matches. rewrite Hport, Hhost.
  cbn [num_strict_eq str_strict_eq].
  rewrite andb_true_iff, Z.eqb_eq, String.eqb_eq. reflexivity.
Qed.

(** Passive mode is entered by a first [connect] with a truthy [listen] whose
    endpoint was allocated: the filter is then registered on that endpoint,
    and the socket is left unbound. *)
Lemma connect_listen_registers env fields connectListener w endpoint :
  p2p (socket w) = false ->
  let field key := default JUndefined (fields !! key) in
  ToInt32 env (field "port"%string) <> 0 ->
  truthy (field "listen"%string) = true ->
  INITIALIZE env
    (initOptions env (field "MIS"%string) (field "OS"%string)
       (field "localAddress"%string) (field "localPort"%string)) = Some endpoint ->
  let r := connect env (JObj fields) connectListener w in
  endpoint_handlers (state_of r) = endpoint_handlers w ++ [endpoint] /\
  _association (socket (state_of r)) = _association (socket w) /\
  outcome_of r = Normal tt.
Proof.
  intros Hp field Hport Hlisten Hinit r. subst r field. cbv beta in *.
  rewrite (connect_proceeds env fields connectListener w Hp Hport).
  cbv beta zeta. rewrite Hinit.
  cbn [state_of trace_of outcome_of fst snd].
  unfold connect_endpoint, on. mstep.
  destruct (String.eqb (typeof connectListener) "function"); mstep;
    cbn [read get_prop]; mstep; rewrite Hlisten; mstep; repeat split.
Qed.

(** The filter on a socket whose application has itself assigned the
    expected peer, [this.host = H] and [this.port = P] (its filter is
    registered on [endpoint]): an inbound association from that address and
    port is bound to the socket and ['connect'] is emitted, once, with no
    abort; an inbound association from another port (or another address) is
    aborted, nothing is emitted and the store is left as it was, so that a
    socket that was unbound stays unbound. *)
Theorem passive_filter
  (env : Env) (w : World) (endpoint : Endpoint.t) (a : Association.t)
  (H : string) (P : Z) :
  reachable w ->
  In endpoint (endpoint_handlers w) ->
  port (socket w) = JNum P ->
  host (socket w) = JStr H ->
  let r := endpoint_emits env endpoint a w in
  (Association.remoteAddress a = H -> Association.remotePort a = P ->
   _association (socket (state_of r)) = Some a /\
   _endpoint (socket (state_of r)) = Some endpoint /\
   emitted (trace_of r) = [("connect"%string, [])] /\
   aborts (trace_of r) = [] /\
   outcome_of r = Normal tt) /\
  (Association.remotePort a <> P \/ Association.remoteAddress a <> H ->
   state_of r = w /\
   aborts (trace_of r) = [(a, [])] /\
   emitted (trace_of r) = []).
Proof.
  intros Hr Hin Hport Hhost r. subst r. apply reachable_consistent in Hr.
  rewrite (endpoint_emits_filter env endpoint a w Hr Hin), filter_unfold.
  pose proof (peer_matches_spec (socket w) a P H Hport Hhost) as Hspec.
  destruct (peer_matches (socket w) a) eqn:Hm.
  - split; [|intros Hne; destruct (proj1 Hspec eq_refl);
             destruct Hne; contradiction].
    intros _ _. cbn [state_of trace_of outcome_of fst snd].
    rewrite !emitted_app, !aborts_app. silence_logs.
    repeat match goal with H : _ = [] |- _ => rewrite H end.
    repeat split.
  - split; [intros HH HP; assert (false = true) by (apply Hspec; auto);
            discriminate|].
    intros _. cbn [state_of trace_of outcome_of fst snd].
    rewrite !emitted_app, !aborts_app. silence_logs.
    repeat match goal with H : _ = [] |- _ => rewrite H end.
    repeat split.
Qed.

Lemma reachable_sample_listening : reachable sample_listening.
Proof. apply reachable_run, (reachable_new JUndefined). Qed.

Lemma passive_filter_witness :
  reachable sample_listening /\
  In sample_endpoint (endpoint_handlers sample_listening) /\
  _association (socket sample_listening) = None /\
  _association (socket (state_of
    (endpoint_emits sample_env sample_endpoint sample_peer sample_listening))) =
    Some sample_peer /\
  state_of (endpoint_emits sample_env sample_endpoint sample_stranger
              sample_listening) = sample_listening.
Proof.
  assert (Hin : In sample_endpoint (endpoint_handlers sample_listening))
    by (left; reflexivity).
  split; [exact reachable_sample_listening|]. split; [exact Hin|].
  split; [reflexivity|]. split.
  - exact (proj1 (proj1 (passive_filter sample_env sample_listening
      sample_endpoint sample_peer "10.0.0.2" 5000
      reachable_sample_listening Hin eq_refl eq_refl) eq_refl eq_refl)).
  - apply (proj2 (passive_filter sample_env sample_listening
      sample_endpoint sample_stranger "10.0.0.2" 5000
      reachable_sample_listening Hin eq_refl eq_refl)).
    left. vm_compute. discriminate.
Defined.

(** C7 (the code at the failing input).  The expected peer is what
    [this.port] and [this.host] hold, and [connect] assigns neither from its
    options: on a new socket put in passive mode with
    [connect({port: 5000, host: '10.0.0.2', listen: true})], both are still
    [undefined], and the inbound association of that very peer,
    10.0.0.2:5000, is aborted: the socket stays unbound and ['connect'] is
    not emitted, where the claim has it bound and ['connect'] emitted. *)
Theorem passive_filter_aborts_expected_peer :
  let w := state_of
    (connect sample_env
       (JObj {[ "port" := JNum 5000; "host" := JStr "10.0.0.2";
                "listen" := JBool true ]}) JUndefined fresh) in
  let r := endpoint_emits sample_env sample_endpoint sample_peer w in
  In sample_endpoint (endpoint_handlers w) /\
  Association.remotePort sample_peer = 5000 /\
  Association.remoteAddress sample_peer = "10.0.0.2"%string /\
  port (socket w) = JUndefined /\ host (socket w) = JUndefined /\
  aborts (trace_of r) = [(sample_peer, [])] /\
  emitted (trace_of r) = [] /\
  _association (socket (state_of r)) = None.
Proof.
  cbv zeta. split; [left; reflexivity|].
  split; [reflexivity|]. split; [reflexivity|].
  split; [reflexivity|]. split; [reflexivity|].
  split; [vm_compute; reflexivity|].
  split; [vm_compute; reflexivity|]. reflexivity.
Qed.

(** ** Rebinding *)




Lemma run_cons env op rest w :
  run ((env, op) :: rest) w =
  ((run rest (state_of (step env op w))).1,
   trace_of (step env op w) ++ (run rest (state_of (step env op w))).2).
Proof. reflexivity. Qed.



(** * Further properties *)

(** ** Active connection *)

Lemma initializations_app t1 t2 :
  initializations (t1 ++ t2) = initializations t1 ++ initializations t2.
Proof. apply omap_app. Qed.

Lemma associate_calls_app t1 t2 :
  associate_calls (t1 ++ t2) = associate_calls t1 ++ associate_calls t2.
Proof. apply omap_app. Qed.

Lemma log_trace_quiet s level rest :
  initializations (log_trace s level rest) = [] /\
  associate_calls (log_trace s level rest) = [] /\
  receives (log_trace s level rest) = [] /\
  pushed (log_trace s level rest) = [] /\
  endpoint_sets (log_trace s level rest) = [] /\
  association_sets (log_trace s level rest) = [].
Proof. unfold log_trace. destruct (log_forwards s); repeat split. Qed.

Ltac quiet_logs :=
  repeat match goal with
  | |- context [log_trace ?s ?l ?r] =>
      let H := fresh "Hlog" in
      let G := fresh "Hlog" in
      pose proof (log_trace_silent s l r) as H;
      pose proof (log_trace_quiet s l r) as G;
      destruct H as (? & ? & ? & ? & ? & ? & ?);
      destruct G as (? & ? & ? & ? & ? & ?);
      generalize dependent (log_trace s l r); intros
  end;
  repeat match goal with H : _ = [] |- _ => rewrite H end.

(** The rest of [connect] when the endpoint was allocated. *)
Lemma connect_endpoint_some env fields connectListener init assoc endpoint w :
  let w2 :=
    if String.eqb (typeof connectListener) "function"
    then on_socket (add_listener "connect" connectListener) w else w in
  connect_endpoint env (JObj fields) connectListener init assoc (Some endpoint) w =
  if truthy (default JUndefined (fields !! "listen"))
  then (register_endpoint_handler endpoint w2,
        [Endpoint_on endpoint "COMMUNICATION UP"], Normal tt)
  else (state_of (_construct endpoint (ASSOCIATE env endpoint assoc) w2),
        Endpoint_ASSOCIATE endpoint assoc ::
        trace_of (_construct endpoint (ASSOCIATE env endpoint assoc) w2),
        outcome_of (_construct endpoint (ASSOCIATE env endpoint assoc) w2)).
Proof.
  cbv zeta. unfold connect_endpoint, on. mstep.
  destruct (String.eqb (typeof connectListener) "function"); mstep;
    cbn [read get_prop]; mstep;
    destruct (truthy _); mstep; try reflexivity;
    destruct (ASSOCIATE env endpoint assoc); reflexivity.
Qed.



(** X2.  When the endpoint is allocated but [ASSOCIATE] yields nothing, an
    active [connect] throws a [TypeError] and leaves the socket half set up:
    it holds the endpoint and reports its local port and address, its
    counters are 0 and [connecting] is [false], but it has no association
    and no listeners on one; the endpoint is not destroyed, and since [p2p]
    is set another [connect] does nothing. *)
Theorem connect_without_association
  (env1 env2 : Env) (fields : gmap string jsval)
  (connectListener options2 listener2 : jsval) (w : World) (e : Endpoint.t) :
  p2p (socket w) = false ->
  let field key := default JUndefined (fields !! key) in
  let remotePort := ToInt32 env1 (field "port"%string) in
  let init := initOptions env1 (field "MIS"%string) (field "OS"%string)
                (field "localAddress"%string) (field "localPort"%string) in
  let assoc := assocOptions remotePort (field "host"%string) in
  remotePort <> 0 ->
  truthy (field "listen"%string) = false ->
  INITIALIZE env1 init = Some e ->
  ASSOCIATE env1 e assoc = None ->
  let r := connect env1 (JObj fields) connectListener w in
  outcome_of r = Throw (JError "TypeError" "association.remotePort") /\
  _endpoint (socket (state_of r)) = Some e /\
  _association (socket (state_of r)) = None /\
  counters (socket (state_of r)) = (JNum 0, JNum 0, JNum 0) /\
  connecting (socket (state_of r)) = JBool false /\
  localPort (socket (state_of r)) = Endpoint.localPort e /\
  localAddress (socket (state_of r)) = Endpoint.localAddress e /\
  association_handlers (state_of r) = association_handlers w /\
  destroyed_endpoints (trace_of r) = [] /\
  connect env2 options2 listener2 (state_of r) = (state_of r, [], Normal tt).
Proof.
  intros Hp field remotePort init assoc Hport Hlisten Hinit Hassoc r.
  assert (Hagain : connect env2 options2 listener2 (state_of r) =
                   (state_of r, [], Normal tt))
    by (apply connect_again, connect_sets_p2p).
  revert Hagain. subst r init assoc remotePort field. cbv beta in *.
  rewrite (connect_proceeds env1 fields connectListener w Hp Hport).
  cbv beta zeta. rewrite Hinit, connect_endpoint_some. cbv zeta.
  rewrite Hlisten, Hassoc, construct_none.
  cbn [state_of trace_of outcome_of fst snd]. intros Hagain.
  rewrite !destroyed_endpoints_app. quiet_logs.
  destruct (String.eqb (typeof connectListener) "function");
    repeat split; exact Hagain.
Qed.

Lemma connect_without_association_witness :
  p2p (socket fresh) = false /\
  outcome_of (connect no_association_env (JObj sample_fields) JUndefined fresh)
    = Throw (JError "TypeError" "association.remotePort") /\
  _endpoint (socket (state_of
    (connect no_association_env (JObj sample_fields) JUndefined fresh))) =
    Some sample_endpoint.
Proof.
  pose proof (connect_without_association no_association_env sample_env
    sample_fields JUndefined active_options JUndefined fresh sample_endpoint
    eq_refl) as H.
  cbv zeta in H.
  assert (Hport : ToInt32 no_association_env
                    (default JUndefined (sample_fields !! "port"%string)) <> 0)
    by (vm_compute; discriminate).
  specialize (H Hport eq_refl eq_refl eq_refl).
  split; [reflexivity|]. split; apply H.
Defined.

(** ** The port *)

Lemma wrap32_range z : - 2 ^ 31 <= wrap32 z < 2 ^ 31.
Proof.
  unfold wrap32. change (2 ^ 31) with 2147483648.
  change (2 ^ 32) with 4294967296.
  pose proof (Z.mod_pos_bound (z + 2147483648) 4294967296 eq_refl). lia.
Qed.

Lemma wrap32_zero z : wrap32 z = 0 <-> z mod 2 ^ 32 = 0.
Proof.
  unfold wrap32. change (2 ^ 31) with 2147483648.
  change (2 ^ 32) with 4294967296.
  pose proof (Z.mod_pos_bound (z + 2147483648) 4294967296 eq_refl) as H1.
  pose proof (Z.mod_pos_bound z 4294967296 eq_refl) as H2.
  pose proof (Z.div_mod (z + 2147483648) 4294967296) as H3.
  pose proof (Z.div_mod z 4294967296) as H4.
  split; intros H; lia.
Qed.

(** Past the validation, [connect] never ends with the validation's own
    error. *)
Lemma connect_endpoint_outcome env fields connectListener init assoc ep w :
  outcome_of (connect_endpoint env (JObj fields) connectListener init assoc ep w)
  <> Throw (JError "Error" "port is required").
Proof.
  destruct ep as [e|].
  - rewrite connect_endpoint_some. cbv zeta.
    destruct (truthy _); [discriminate|].
    destruct (ASSOCIATE env e assoc);
      [rewrite construct_some | rewrite construct_none]; discriminate.
  - pose proof (connect_endpoint_none env fields connectListener init assoc w)
      as H. cbv zeta in H. destruct H as (_ & _ & ->).
    destruct (has_listener "error" (socket w)); [discriminate|].
    cbn [String.append]. discriminate.
Qed.

(** X3.  A port that is a number is truncated to an integer and taken modulo
    2^32, and not checked otherwise: a first [connect] with a numeric [port]
    fails with "port is required" exactly when the integral part of the port
    is a multiple of 2^32 (0, 0.5, 4294967296, NaN and the infinities, which
    count as 0); every other number, negative ones and those above 65535
    included, goes on to [Endpoint.INITIALIZE], and the remote port that
    results lies in [-2^31, 2^31). *)
Theorem connect_port_modulo
  (env : Env) (fields : gmap string jsval) (connectListener : jsval)
  (w : World) (v : jsval) :
  p2p (socket w) = false ->
  fields !! "port"%string = Some v ->
  typeof v = "number"%string ->
  let r := connect env (JObj fields) connectListener w in
  (outcome_of r = Throw (JError "Error" "port is required") <->
   integral_part v mod 2 ^ 32 = 0) /\
  (integral_part v mod 2 ^ 32 <> 0 ->
   exists init, initializations (trace_of r) = [init]) /\
  (integral_part v mod 2 ^ 32 = 0 -> initializations (trace_of r) = []) /\
  - 2 ^ 31 <= ToInt32 env v < 2 ^ 31.
Proof.
  intros Hp Hv Hnum r. subst r.
  assert (Hwrap : ToInt32 env v = wrap32 (integral_part v))
    by (destruct v; try discriminate Hnum; reflexivity).
  assert (Hport : ToInt32 env (default JUndefined (fields !! "port"%string))
                  = wrap32 (integral_part v)) by (rewrite Hv; exact Hwrap).
  assert (Hstop : integral_part v mod 2 ^ 32 = 0 ->
    connect env (JObj fields) connectListener w =
    (on_socket (assign_p2p true) w,
     log_trace (socket w) "debug" [JStr "connect"; JObj fields],
     Throw (JError "Error" "port is required"))).
  { intros H0. apply (connect_port_required env (JObj fields) connectListener w
      v Hp eq_refl).
    - cbn [get_prop]. rewrite Hv. reflexivity.
    - rewrite Hwrap. apply wrap32_zero, H0. }
  assert (Hgo : integral_part v mod 2 ^ 32 <> 0 ->
    ToInt32 env (default JUndefined (fields !! "port"%string)) <> 0)
    by (rewrite Hport, wrap32_zero; auto).
  split; [split|split; [|split]].
  - intros Hout.
    destruct (decide (integral_part v mod 2 ^ 32 = 0)) as [|Hne]; [assumption|].
    exfalso. revert Hout.
    rewrite (connect_proceeds env fields connectListener w Hp (Hgo Hne)).
    apply connect_endpoint_outcome.
  - intros H0. rewrite (Hstop H0). reflexivity.
  - intros Hne.
    rewrite (connect_proceeds env fields connectListener w Hp (Hgo Hne)).
    cbv zeta. cbn [trace_of fst snd].
    match goal with
    | |- context [connect_endpoint env ?o ?l ?i ?a ?ep ?w1] =>
        exists i; destruct ep as [e|] eqn:Hep
    end.
    + rewrite !initializations_app, connect_endpoint_some. cbv zeta.
      quiet_logs.
      destruct (truthy _); [reflexivity|].
      destruct (ASSOCIATE env e _); reflexivity.
    + match goal with
      | |- context [connect_endpoint env ?o ?l ?i ?a None ?w1] =>
          assert (Hq : initializations
                         (trace_of (connect_endpoint env o l i a None w1)) = [])
      end.
      { unfold connect_endpoint, emit. mstep.
        cbn [String.eqb Ascii.eqb Bool.eqb andb].
        destruct (has_listener "error" _); cbn [negb]; mstep; [|reflexivity].
        destruct (String.eqb (typeof connectListener) "function"); unfold on;
          mstep; cbn [read get_prop]; mstep; destruct (truthy _); reflexivity. }
      rewrite !initializations_app, Hq. quiet_logs. reflexivity.
  - intros H0. rewrite (Hstop H0). cbn [trace_of fst snd]. quiet_logs.
    reflexivity.
  - rewrite Hwrap. apply wrap32_range.
Qed.

Lemma connect_port_modulo_witness :
  p2p (socket fresh) = false /\
  outcome_of (connect sample_env (JObj {[ "port" := JNum 4294967296 ]})
                JUndefined fresh) =
    Throw (JError "Error" "port is required") /\
  outcome_of (connect sample_env (JObj {[ "port" := JFrac 0 ]})
                JUndefined fresh) =
    Throw (JError "Error" "port is required") /\
  (exists init,
     initializations
       (trace_of (connect sample_env (JObj {[ "port" := JNum 70000 ]})
                    JUndefined fresh)) = [init]).
Proof.
  assert (H1 : ({[ "port" := JNum 4294967296 ]} : gmap string jsval)
                 !! "port"%string = Some (JNum 4294967296))
    by (vm_compute; reflexivity).
  assert (H2 : ({[ "port" := JNum 70000 ]} : gmap string jsval)
                 !! "port"%string = Some (JNum 70000))
    by (vm_compute; reflexivity).
  assert (H3 : ({[ "port" := JFrac 0 ]} : gmap string jsval)
                 !! "port"%string = Some (JFrac 0))
    by (vm_compute; reflexivity).
  split; [reflexivity|]. split; [|split].
  - apply (proj1 (connect_port_modulo sample_env _ JUndefined fresh _
                    eq_refl H1 eq_refl)). reflexivity.
  - apply (proj1 (connect_port_modulo sample_env _ JUndefined fresh _
                    eq_refl H3 eq_refl)). reflexivity.
  - apply (proj1 (proj2 (connect_port_modulo sample_env _ JUndefined fresh _
                           eq_refl H2 eq_refl))). vm_compute. discriminate.
Defined.

(** ** The connect listener *)

(** X4.  A first [connect] that passes the validation and whose endpoint is
    allocated registers its second argument on ['connect'] when it is a
    function, in either mode and also when [ASSOCIATE] fails, and registers
    nothing when it is anything else; no other listener of the socket is
    touched. *)
Theorem connect_registers_listener
  (env : Env) (fields : gmap string jsval) (connectListener : jsval)
  (w : World) (e : Endpoint.t) :
  p2p (socket w) = false ->
  let field key := default JUndefined (fields !! key) in
  ToInt32 env (field "port"%string) <> 0 ->
  INITIALIZE env
    (initOptions env (field "MIS"%string) (field "OS"%string)
       (field "localAddress"%string) (field "localPort"%string)) = Some e ->
  let r := connect env (JObj fields) connectListener w in
  listeners (socket (state_of r)) =
  listeners (socket w) ++
  match connectListener with
  | JFun _ => [("connect"%string, connectListener)]
  | _ => []
  end.
Proof.
  intros Hp field Hport Hinit r. subst r field. cbv beta in *.
  rewrite (connect_proceeds env fields connectListener w Hp Hport).
  cbv beta zeta. rewrite Hinit, connect_endpoint_some. cbv zeta.
  cbn [state_of fst].
  destruct (truthy _);
    [|destruct (ASSOCIATE env e _);
      [rewrite construct_some | rewrite construct_none]];
    destruct connectListener; cbn; rewrite ?app_nil_r; reflexivity.
Qed.

Lemma connect_registers_listener_witness :
  p2p (socket fresh) = false /\
  listeners (socket (state_of
    (connect sample_env (JObj sample_fields) (JFun 4) fresh))) =
    [("connect"%string, JFun 4)].
Proof.
  split; [reflexivity|].
  apply (connect_registers_listener sample_env sample_fields (JFun 4) fresh
           sample_endpoint eq_refl); [vm_compute; discriminate | reflexivity].
Defined.

(** ** Parameter configuration *)

Lemma copy_params_object assign fields params w :
  copy_params assign (JObj fields) params w =
  (w, omap (fun key => assign key <$> fields !! key) params, Normal tt).
Proof.
  induction params as [|key rest IH]; [reflexivity|].
  cbn [copy_params hasOwnProperty]. cbn [omap list_omap].
  destruct (fields !! key) as [v|] eqn:Hk.
  - rewrite bool_decide_true by eauto. mstep. cbn [read get_prop]. rewrite Hk.
    mstep. rewrite IH. reflexivity.
  - rewrite bool_decide_false by (intros [? ?]; discriminate).
    rewrite IH. reflexivity.
Qed.

(** On the objects that own none of the recognized keys nothing is copied. *)
Lemma copy_params_other assign options params w :
  typeof options = "object"%string ->
  (forall fields, options <> JObj fields) -> options <> JNull ->
  copy_params assign options params w = (w, [], Normal tt).
Proof.
  intros Ht Ho Hn. induction params as [|key rest IH]; [reflexivity|].
  destruct options; try discriminate Ht; try contradiction;
    try (exfalso; eapply Ho; reflexivity); cbn [copy_params hasOwnProperty];
    exact IH.
Qed.

(** X6.  On a bound socket, [SCTP_PEER_ADDR_PARAMS(options)] with an object
    sets on the association exactly those of [sack_timeout], [sack_freq] and
    [hb_interval] that the object owns, each to the object's value and in
    that order; every other key of the object is ignored, nothing else is
    called and the socket's own fields are untouched. *)
Theorem peer_addr_params_copies
  (w : World) (a : Association.t) (fields : gmap string jsval) :
  _association (socket w) = Some a ->
  let r := SCTP_PEER_ADDR_PARAMS (JObj fields) w in
  state_of r = w /\ outcome_of r = Normal tt /\
  trace_of r =
    omap (fun key => Association_set a key <$> fields !! key)
         ["sack_timeout"; "sack_freq"; "hb_interval"]%string /\
  (forall a' key v, In (Association_set a' key v) (trace_of r) ->
     a' = a /\ fields !! key = Some v /\
     In key ["sack_timeout"; "sack_freq"; "hb_interval"]%string).
Proof.
  intros Hb r. subst r. unfold SCTP_PEER_ADDR_PARAMS. mstep. rewrite Hb.
  change (String.eqb (typeof (JObj fields)) "object") with true. cbv iota.
  rewrite copy_params_object. cbn [state_of trace_of outcome_of fst snd].
  split; [reflexivity|]. split; [reflexivity|]. split; [reflexivity|].
  intros a' key v Hin. apply list_elem_of_In, list_elem_of_omap in Hin.
  destruct Hin as (k & Hk & Hv).
  destruct (fields !! k) as [x|] eqn:Hx; [|discriminate Hv].
  injection Hv as -> -> ->. apply list_elem_of_In in Hk. auto.
Qed.

Lemma peer_addr_params_copies_witness :
  _association (socket sample_bound) = Some sample_peer /\
  trace_of (SCTP_PEER_ADDR_PARAMS
              (JObj {[ "hb_interval" := JNum 30000; "rto_max" := JNum 1 ]})
              sample_bound) =
    [Association_set sample_peer "hb_interval" (JNum 30000)].
Proof.
  split; [reflexivity|].
  pose proof (peer_addr_params_copies sample_bound sample_peer
    {[ "hb_interval" := JNum 30000; "rto_max" := JNum 1 ]} eq_refl) as H.
  cbv zeta in H. destruct H as (_ & _ & H & _).
  rewrite H. vm_compute. reflexivity.
Defined.

(** X7.  On a socket that holds an endpoint, [SCTP_ASSOCINFO(options)] with
    an object sets [valid_cookie_life] on the endpoint when the object owns
    that key, to the object's value, and does nothing when it does not;
    every other key is ignored and the socket's own fields are untouched. *)
Theorem associnfo_copies
  (w : World) (e : Endpoint.t) (fields : gmap string jsval) :
  _endpoint (socket w) = Some e ->
  let r := SCTP_ASSOCINFO (JObj fields) w in
  state_of r = w /\ outcome_of r = Normal tt /\
  trace_of r =
    match fields !! "valid_cookie_life"%string with
    | Some v => [Endpoint_set e "valid_cookie_life" v]
    | None => []
    end.
Proof.
  intros He r. subst r. unfold SCTP_ASSOCINFO. mstep. rewrite He.
  change (String.eqb (typeof (JObj fields)) "object") with true. cbv iota.
  rewrite copy_params_object. cbn [state_of trace_of outcome_of fst snd].
  cbn [omap list_omap].
  destruct (fields !! "valid_cookie_life"%string); split; try split; reflexivity.
Qed.

Lemma associnfo_copies_witness :
  _endpoint (socket sample_bound) = Some sample_endpoint /\
  trace_of (SCTP_ASSOCINFO
              (JObj {[ "valid_cookie_life" := JNum 60000; "asocmaxrxt" := JNum 5 ]})
              sample_bound) =
    [Endpoint_set sample_endpoint "valid_cookie_life" (JNum 60000)].
Proof.
  split; [reflexivity|].
  pose proof (associnfo_copies sample_bound sample_endpoint
    {[ "valid_cookie_life" := JNum 60000; "asocmaxrxt" := JNum 5 ]} eq_refl) as H.
  cbv zeta in H. destruct H as (_ & _ & H).
  rewrite H. vm_compute. reflexivity.
Defined.

(** X8.  The two filtered setters on other arguments: before anything is
    bound they ignore every argument, [null] included; once bound they ignore
    an argument that is not of type ['object'] and an object that is not a
    plain one (an array, a buffer), and they throw a [TypeError] on [null],
    whose type is ['object'] and which has no [hasOwnProperty]. *)
Theorem filtered_setters_edge_cases (w : World) (options : jsval) :
  (_endpoint (socket w) = None ->
   SCTP_ASSOCINFO options w = (w, [], Normal tt)) /\
  (_association (socket w) = None ->
   SCTP_PEER_ADDR_PARAMS options w = (w, [], Normal tt)) /\
  (is_Some (_endpoint (socket w)) ->
   SCTP_ASSOCINFO JNull w = (w, [], Throw (JError "TypeError" "options"))) /\
  (is_Some (_association (socket w)) ->
   SCTP_PEER_ADDR_PARAMS JNull w = (w, [], Throw (JError "TypeError" "options"))) /\
  ((forall fields, options <> JObj fields) -> options <> JNull ->
   SCTP_ASSOCINFO options w = (w, [], Normal tt) /\
   SCTP_PEER_ADDR_PARAMS options w = (w, [], Normal tt)).
Proof.
  unfold SCTP_ASSOCINFO, SCTP_PEER_ADDR_PARAMS.
  repeat split; mstep.
  - intros ->. reflexivity.
  - intros ->. reflexivity.
  - intros [e ->]. reflexivity.
  - intros [a ->]. reflexivity.
  - destruct (_endpoint (socket w)); [|reflexivity].
    destruct (String.eqb (typeof options) "object") eqn:Ht; [|reflexivity].
    apply String.eqb_eq in Ht. rewrite copy_params_other by assumption.
    reflexivity.
  - destruct (_association (socket w)); [|reflexivity].
    destruct (String.eqb (typeof options) "object") eqn:Ht; [|reflexivity].
    apply String.eqb_eq in Ht. rewrite copy_params_other by assumption.
    reflexivity.
Qed.

(** X9.  Default send parameters accumulate: setting [m1] and then [m2]
    leaves the socket as setting the merge of the two (with [m2] on top)
    would; setting the same object twice is the same as once; an argument
    with no properties of its own ([undefined], [null], a number, a boolean,
    a function) changes nothing; and no call of the setter binds, unbinds or
    calls anything. *)
Theorem default_send_param_composes
  (w : World) (m1 m2 : gmap string jsval) (v : jsval) :
  let set options w := state_of (SCTP_DEFAULT_SEND_PARAM options w) in
  set (JObj m2) (set (JObj m1) w) = set (JObj (m2 ∪ m1)) w /\
  set (JObj m1) (set (JObj m1) w) = set (JObj m1) w /\
  (own_enumerable v = ∅ -> set v w = w) /\
  sctp_sndrcvinfo (socket (set v w)) = own_enumerable v ∪ sctp_sndrcvinfo (socket w) /\
  _association (socket (set v w)) = _association (socket w) /\
  trace_of (SCTP_DEFAULT_SEND_PARAM v w) = [] /\
  outcome_of (SCTP_DEFAULT_SEND_PARAM v w) = Normal tt.
Proof.
  cbv zeta. rewrite !default_send_param_unfold.
  cbn [state_of trace_of outcome_of fst snd].
  unfold on_socket, assign_sctp_sndrcvinfo, Object_assign.
  cbn [socket sctp_sndrcvinfo own_enumerable endpoint_handlers
       association_handlers logger log_forwards writeBuffer p2p port host
       destroyed connecting bufferSize bytesRead bytesWritten _endpoint
       localPort localAddress _association remotePort remoteAddress
       remoteFamily listeners].
  repeat split.
  - rewrite (assoc_L (∪)). reflexivity.
  - rewrite (assoc_L (∪)), (idemp_L (∪)). reflexivity.
  - intros ->. rewrite (left_id_L ∅ (∪)). destruct w as [[] ? ?]. reflexivity.
Qed.

(** ** What each operation calls *)

Lemma respects_ret {A} I allowed (a : A) : respects I allowed (ret a).
Proof. intros w Hw. split; [exact Hw | constructor]. Qed.

Lemma respects_throw {A} I allowed e : respects I allowed (@throw A e).
Proof. intros w Hw. split; [exact Hw | constructor]. Qed.

Lemma respects_this I allowed : respects I allowed this.
Proof. intros w Hw. split; [exact Hw | constructor]. Qed.

Lemma respects_tell I allowed e :
  allowed e = true -> respects I allowed (tell e).
Proof. intros He w Hw. split; [exact Hw | repeat constructor; exact He]. Qed.

Lemma respects_modify (I : World -> Prop) allowed f :
  (forall w, I w -> I (f w)) -> respects I allowed (modify f).
Proof. intros Hf w Hw. split; [apply Hf, Hw | constructor]. Qed.

Lemma respects_bind {A B} I allowed (m : M A) (f : A -> M B) :
  respects I allowed m -> (forall a, respects I allowed (f a)) ->
  respects I allowed (m ≫= f).
Proof.
  intros Hm Hf w Hw. destruct (Hm w Hw) as [H1 H2].
  rewrite state_of_bind, trace_of_bind.
  destruct (outcome_of (m w)) as [a|]; [|auto].
  destruct (Hf a _ H1) as [H3 H4]. split; [exact H3|].
  apply Forall_app; auto.
Qed.

Lemma respects_log (I : World -> Prop) allowed level rest :
  (forall w, I w -> log_forwards (socket w) = true ->
             allowed (Log level rest) = true) ->
  respects I allowed (log level rest).
Proof.
  intros Hl w Hw. rewrite log_unfold. split; [exact Hw|].
  unfold log_trace. cbn [trace_of fst snd].
  destruct (log_forwards (socket w)) eqn:Hf; repeat constructor.
  apply (Hl w Hw Hf).
Qed.

Lemma respects_emit I allowed event args :
  allowed (Emit event args) = true -> respects I allowed (emit event args).
Proof.
  intros He. unfold emit. apply respects_bind; [apply respects_this|].
  intros s. apply respects_bind; [apply respects_tell, He|]. intros _.
  destruct (_ && _); [|apply respects_ret].
  destruct args as [|[] ?]; apply respects_throw.
Qed.

Lemma respects_read I allowed site v key : respects I allowed (read site v key).
Proof.
  unfold read. destruct (get_prop v key);
    [apply respects_ret | apply respects_throw].
Qed.

Lemma respects_call I allowed f args :
  (forall n, f = JFun n -> allowed (Callback f args) = true) ->
  respects I allowed (call f args).
Proof.
  intros Hc. destruct f; try apply respects_throw.
  apply respects_tell, (Hc id eq_refl).
Qed.

Lemma respects_call_listeners {A} I allowed (body : A -> M unit) registered :
  (forall h, respects I allowed (body h)) ->
  respects I allowed (call_listeners body registered).
Proof.
  intros Hb. induction registered as [|h rest IH]; cbn [call_listeners];
    [apply respects_ret|].
  apply respects_bind; [apply Hb | intros _; exact IH].
Qed.

(** One step of a proof that a method respects a property and a set of
    events; it leaves the goals about the property and the events it could
    not close. *)
Ltac respects_step :=
  first
    [ apply respects_ret
    | apply respects_throw
    | apply respects_this
    | apply respects_read
    | apply respects_log;
        solve [ intros; reflexivity
              | intros ? HI HF; unfold unlogged in HI; congruence ]
    | apply respects_emit; reflexivity
    | apply respects_call; intros; reflexivity
    | apply respects_tell; reflexivity
    | apply respects_modify; intros ? ?; assumption
    | apply respects_bind; [|intros ?; cbv beta zeta]
    | match goal with
      | |- respects _ _ (if ?b then _ else _) => destruct b
      | |- respects _ _ (match ?x with _ => _ end) => destruct x
      end ].

Ltac respects_tac := repeat respects_step.

Lemma respects_copy_params I allowed assign options params :
  (forall key v, allowed (assign key v) = true) ->
  respects I allowed (copy_params assign options params).
Proof.
  intros Ha. induction params as [|key rest IH]; cbn [copy_params];
    [apply respects_ret|].
  destruct (hasOwnProperty options key) as [[]|];
    [|exact IH|apply respects_throw].
  apply respects_bind; [apply respects_read|]. intros v.
  apply respects_bind; [apply respects_tell, Ha | intros _; exact IH].
Qed.

(** Every operation stays within its footprint. *)
Lemma step_footprint env op :
  respects (fun _ => True) (footprint op) (step env op).
Proof.
  destruct op; cbn [step].
  - unfold address. respects_tac.
  - unfold connect, connect_endpoint, on, _construct. respects_tac.
  - unfold _final. respects_tac.
  - unfold SCTP_ASSOCINFO. respects_tac.
    apply respects_copy_params. reflexivity.
  - unfold SCTP_DEFAULT_SEND_PARAM. respects_tac.
  - unfold SCTP_PEER_ADDR_PARAMS. respects_tac.
    apply respects_copy_params. reflexivity.
  - unfold _read. respects_tac.
  - unfold _write. respects_tac.
  - unfold _destroy, Association_ABORT_call. respects_tac.
  - unfold on. respects_tac.
  - respects_tac.
  - respects_tac.
  - intros w' Hw'. unfold endpoint_emits.
    apply (respects_call_listeners (fun _ => True) _
             (fun e => on_endpoint_COMMUNICATION_UP env e association));
      [|exact I]. intros h.
    unfold on_endpoint_COMMUNICATION_UP, _construct, Association_ABORT_call.
    respects_tac.
  - intros w' Hw'. unfold association_emits.
    apply (respects_call_listeners (fun _ => True) _
             (fun h => association_listener env h.2 h.1 ev));
      [|exact I]. intros h.
    destruct ev; cbn [association_listener];
      unfold on_COMMUNICATION_UP, on_DATA_ARRIVE, on_SHUTDOWN_COMPLETE,
        on_COMMUNICATION_LOST, on_COMMUNICATION_ERROR, Endpoint_DESTROY_call,
        Association_RECEIVE_call, push;
      respects_tac.
Qed.

(** X10.  Each operation makes only the calls of its own kind, whatever the
    store and the collaborators: [Endpoint.INITIALIZE], [ASSOCIATE] and the
    endpoint registration come from [connect] alone, [SEND] from [_write],
    [SHUTDOWN] from [_final], [ABORT] from [_destroy] and from the passive
    filter, the endpoint's [DESTROY] from the two teardown events, [RECEIVE]
    and [push] from the data arrival, the write callbacks from [_write] and
    [_destroy]; [connect] emits nothing but ['error'], the passive filter and
    the association's ['COMMUNICATION UP'] nothing but ['connect'], the
    teardown events nothing but ['end'], respectively ['close'];
    [address], [_read], [SCTP_DEFAULT_SEND_PARAM], [on] and the assignments
    of the expected peer make no call on an endpoint or an association, call
    no callback and emit nothing. *)
Theorem operations_footprint (env : Env) (op : Op) (w : World) :
  let tr := trace_of (step env op w) in
  Forall (fun e => footprint op e = true) tr /\
  (forall a chunk info c, In (Association_SEND a chunk info c) tr ->
     exists x y z, op = Call_write x y z) /\
  (forall a c, In (Association_SHUTDOWN a c) tr -> exists x, op = Call_final x) /\
  (forall o, In (Endpoint_INITIALIZE o) tr -> exists x y, op = Call_connect x y) /\
  (forall e o, In (Endpoint_ASSOCIATE e o) tr -> exists x y, op = Call_connect x y) /\
  (forall a args, In (Association_ABORT a args) tr ->
     (exists x y, op = Call_destroy x y) \/ (exists x y, op = Endpoint_emits x y)) /\
  (forall e, In (Endpoint_DESTROY e) tr ->
     (exists a, op = Association_emits a SHUTDOWN_COMPLETE) \/
     (exists a x y, op = Association_emits a (COMMUNICATION_LOST x y))).
Proof.
  cbv zeta. pose proof (step_footprint env op w I) as [_ H].
  rewrite Forall_forall in H.
  split; [apply Forall_forall, H|].
  repeat split; intros;
    match goal with
    | Hin : In ?e _ |- _ =>
        apply list_elem_of_In, H in Hin
    end;
    destruct op; try discriminate; eauto;
    match goal with
    | ev : AssociationEvent |- _ => destruct ev; try discriminate; eauto
    end.
Qed.

(** ** Logging *)

Lemma step_unlogged env op :
  respects unlogged (fun e => negb (is_log e)) (step env op).
Proof.
  destruct op; cbn [step].
  - unfold address. respects_tac.
  - unfold connect, connect_endpoint, on, _construct. respects_tac.
  - unfold _final. respects_tac.
  - unfold SCTP_ASSOCINFO. respects_tac.
    apply respects_copy_params. reflexivity.
  - unfold SCTP_DEFAULT_SEND_PARAM. respects_tac.
  - unfold SCTP_PEER_ADDR_PARAMS. respects_tac.
    apply respects_copy_params. reflexivity.
  - unfold _read. respects_tac.
  - unfold _write. respects_tac.
  - unfold _destroy, Association_ABORT_call. respects_tac.
  - unfold on. respects_tac.
  - respects_tac.
  - respects_tac.
  - intros w Hw. unfold endpoint_emits.
    apply (respects_call_listeners unlogged _
             (fun e => on_endpoint_COMMUNICATION_UP env e association));
      [|exact Hw]. intros h.
    unfold on_endpoint_COMMUNICATION_UP, _construct, Association_ABORT_call.
    respects_tac.
  - intros w Hw. unfold association_emits.
    apply (respects_call_listeners unlogged _
             (fun h => association_listener env h.2 h.1 ev));
      [|exact Hw]. intros h.
    destruct ev; cbn [association_listener];
      unfold on_COMMUNICATION_UP, on_DATA_ARRIVE, on_SHUTDOWN_COMPLETE,
        on_COMMUNICATION_LOST, on_COMMUNICATION_ERROR, Endpoint_DESTROY_call,
        Association_RECEIVE_call, push;
      respects_tac.
Qed.

(** X11.  A socket whose constructor found no logger with a [log] function
    never logs: the choice made in the constructor is never revised, so in
    every run of operations no call reaches a logger. *)
Theorem unlogged_never_logs (w : World) (ops : list (Env * Op)) :
  unlogged w ->
  unlogged (run ops w).1 /\
  Forall (fun e => is_log e = false) (run ops w).2.
Proof.
  revert w. induction ops as [|[env op] rest IH]; intros w Hw;
    [split; [exact Hw | constructor]|].
  rewrite run_cons. cbn [fst snd].
  destruct (step_unlogged env op w Hw) as [H1 H2].
  destruct (IH _ H1) as [H3 H4]. split; [exact H3|].
  apply Forall_app. split; [|exact H4].
  eapply Forall_impl; [exact H2|]. intros e He. cbv beta in He.
  destruct (is_log e); [discriminate He | reflexivity].
Qed.

(** A socket created without options, or with a [logger] that is absent or
    has no function [log], is such a socket, and its constructor has not
    logged either. *)
Lemma new_socket_unlogged options :
  typeof (default JUndefined
            (get_prop
               (default JUndefined
                  (get_prop (if truthy options then options else JObj ∅)
                     "logger")) "log")) <> "function"%string ->
  unlogged (new_Socket options).1 /\ (new_Socket options).2 = [].
Proof.
  intros Hf. apply String.eqb_neq in Hf. unfold unlogged, new_Socket.
  cbn [fst snd socket log_forwards]. rewrite Hf, andb_false_r.
  split; reflexivity.
Qed.

Lemma unlogged_never_logs_witness :
  unlogged fresh /\
  Forall (fun e => is_log e = false)
    (run [(sample_env, Call_connect active_options JUndefined);
          (sample_env, Call_write (JStr "X") JUndefined (JFun 0));
          (sample_env, Call_destroy JNull (JFun 1))] fresh).2.
Proof.
  split; [reflexivity|].
  exact (proj2 (unlogged_never_logs fresh _ eq_refl)).
Defined.

(** ** Allocation *)

Lemma allowed_no_initialization (allowed : Event -> bool) tr :
  (forall o, allowed (Endpoint_INITIALIZE o) = false) ->
  (forall e o, allowed (Endpoint_ASSOCIATE e o) = false) ->
  Forall (fun e => allowed e = true) tr ->
  initializations tr = [] /\ associate_calls tr = [].
Proof.
  intros Hi Ha. induction 1 as [|e tr He _ [IH1 IH2]]; [split; reflexivity|].
  destruct e; cbn [initializations associate_calls omap list_omap];
    try (split; [exact IH1 | exact IH2]).
  - rewrite Hi in He. discriminate He.
  - rewrite Ha in He. discriminate He.
Qed.

Lemma step_allocates_nothing env op w :
  (forall options connectListener, op <> Call_connect options connectListener) ->
  initializations (trace_of (step env op w)) = [] /\
  associate_calls (trace_of (step env op w)) = [].
Proof.
  intros Hop. apply (allowed_no_initialization (footprint op));
    [| |apply (step_footprint env op w I)];
    intros; destruct op; try reflexivity; exfalso; eapply Hop; reflexivity.
Qed.

Lemma connect_endpoint_allocation env fields connectListener init assoc ep w :
  let tr := trace_of
    (connect_endpoint env (JObj fields) connectListener init assoc ep w) in
  initializations tr = [] /\ (length (associate_calls tr) <= 1)%nat.
Proof.
  cbv zeta. destruct ep as [e|].
  - rewrite connect_endpoint_some. cbv zeta.
    destruct (truthy _); [cbn; split; [reflexivity | lia]|].
    destruct (ASSOCIATE env e assoc);
      [rewrite construct_some | rewrite construct_none];
      cbn; split; (reflexivity || lia).
  - unfold connect_endpoint, emit. mstep.
    cbn [String.eqb Ascii.eqb Bool.eqb andb].
    destruct (has_listener "error" _); cbn [negb]; mstep;
      [|cbn; split; [reflexivity | lia]].
    destruct (String.eqb (typeof connectListener) "function"); unfold on;
      mstep; cbn [read get_prop]; mstep; destruct (truthy _);
      cbn; split; (reflexivity || lia).
Qed.

Lemma connect_allocation env options connectListener w :
  let tr := trace_of (connect env options connectListener w) in
  (length (initializations tr) <= if p2p (socket w) then 0 else 1)%nat /\
  (length (associate_calls tr) <= if p2p (socket w) then 0 else 1)%nat.
Proof.
  cbv zeta. destruct (p2p (socket w)) eqn:Hp.
  - rewrite connect_again by exact Hp. cbn. lia.
  - destruct (decide (typeof options = "object"%string)) as [Ht|Ht];
      [|rewrite connect_options_required by assumption; cbn; lia].
    destruct (get_prop options "port") as [port|] eqn:Hg.
    + destruct (decide (ToInt32 env port = 0)) as [Hz|Hz].
      { erewrite connect_port_required by eassumption.
        cbn [trace_of fst snd]. quiet_logs. cbn. lia. }
      destruct options; try discriminate Ht; try discriminate Hg;
        try (injection Hg as <-; contradiction Hz; reflexivity).
      injection Hg as <-.
      rewrite (connect_proceeds env fields connectListener w Hp Hz).
      cbv zeta. cbn [trace_of fst snd].
      match goal with
      | |- context [connect_endpoint env ?o ?l ?i ?a ?ep ?w1] =>
          pose proof (connect_endpoint_allocation env fields l i a ep w1) as H
      end.
      cbv zeta in H. destruct H as [H1 H2].
      rewrite !initializations_app, !associate_calls_app, H1.
      quiet_logs.
      cbn [app initializations associate_calls omap list_omap length].
      split; [lia | exact H2].
    + destruct options; try discriminate Hg; try discriminate Ht.
      rewrite connect_null by assumption.
      cbn [trace_of fst snd]. quiet_logs. cbn. lia.
Qed.

Lemma run_allocation ops w :
  (length (initializations (run ops w).2) <=
     if p2p (socket w) then 0 else 1)%nat /\
  (length (associate_calls (run ops w).2) <=
     if p2p (socket w) then 0 else 1)%nat.
Proof.
  revert w. induction ops as [|[env op] rest IH]; intros w;
    [cbn; destruct (p2p (socket w)); lia|].
  rewrite run_cons. cbn [snd].
  rewrite initializations_app, associate_calls_app, !length_app.
  specialize (IH (state_of (step env op w))).
  assert (Hkeep : p2p (socket w) = true ->
                  p2p (socket (state_of (step env op w))) = true)
    by apply step_keeps_p2p.
  assert (Hother :
    (forall o l, op <> Call_connect o l) ->
    (length (initializations (trace_of (step env op w))) +
     length (initializations (run rest (state_of (step env op w))).2) <=
     if p2p (socket w) then 0 else 1)%nat /\
    (length (associate_calls (trace_of (step env op w))) +
     length (associate_calls (run rest (state_of (step env op w))).2) <=
     if p2p (socket w) then 0 else 1)%nat).
  { intros Hop. destruct (step_allocates_nothing env op w Hop) as [-> ->].
    cbn [length]. destruct (p2p (socket w));
      [rewrite Hkeep in IH by reflexivity; lia
      |destruct (p2p (socket (state_of _))); lia]. }
  destruct op; try (apply Hother; intros ? ?; discriminate).
  clear Hother. cbn [step] in *.
  match goal with
  | |- context [connect env ?o ?l w] =>
      pose proof (connect_allocation env o l w) as Hc
  end.
  cbv zeta in Hc. rewrite connect_sets_p2p in IH.
  destruct (p2p (socket w)); lia.
Qed.

(** X12.  A socket allocates at most once: in every run of operations from a
    fresh socket [Endpoint.INITIALIZE] is called at most once and
    [ASSOCIATE] at most once, however many times [connect] is called and
    whatever the calls return or throw; from a store in which [connect] has
    been called before, neither is ever called again. *)
Theorem allocation_at_most_once
  (options : jsval) (ops later : list (Env * Op)) :
  let r := run ops (new_Socket options).1 in
  (length (initializations r.2) <= 1)%nat /\
  (length (associate_calls r.2) <= 1)%nat /\
  (forall env o l,
     initializations (run later (state_of (connect env o l r.1))).2 = [] /\
     associate_calls (run later (state_of (connect env o l r.1))).2 = []).
Proof.
  cbv zeta.
  pose proof (run_allocation ops (new_Socket options).1) as [H1 H2].
  cbn [new_Socket fst socket p2p] in H1, H2.
  split; [exact H1|]. split; [exact H2|].
  intros env o l.
  pose proof (run_allocation later
    (state_of (connect env o l (run ops (new_Socket options).1).1))) as [H3 H4].
  rewrite connect_sets_p2p in H3, H4.
  split; apply length_zero_iff_nil; lia.
Qed.

(** ** The socket's description of itself *)

Lemma described_new options : described (new_Socket options).1.
Proof. split; cbn; auto. Qed.

Lemma described_bound_to endpoint a w : described (bound_to endpoint a w).
Proof. split; cbn; eauto 10. Qed.

Lemma described_unassociated endpoint w :
  described (on_socket (assign_local endpoint None) w).
Proof. split; cbn; auto. Qed.

Lemma described_filter env endpoint a w :
  described w ->
  described (state_of (on_endpoint_COMMUNICATION_UP env endpoint a w)).
Proof.
  intros Hw. rewrite filter_unfold.
  destruct (peer_matches _ _); [apply described_bound_to | exact Hw].
Qed.

Lemma step_described env op w :
  described w -> described (state_of (step env op w)).
Proof.
  intros Hw.
  assert (Hro : forall m : M unit, readonly m -> described (state_of (m w)))
    by (intros m Hm; rewrite Hm; exact Hw).
  assert (Hset : forall w', described w' ->
            described (on_socket (assign_p2p true) w') /\
            (forall l, described (on_socket (add_listener "connect" l) w')))
    by (intros w' [H1 H2]; split; [|intros l]; split; assumption).
  destruct op; cbn [step].
  - apply Hro, readonly_bind; [apply readonly_address|].
    intros ?; apply readonly_ret.
  - destruct (p2p (socket w)) eqn:Hp; [rewrite connect_again by exact Hp; exact Hw|].
    destruct (connect_state env options connectListener w Hp)
      as (w2 & Hw2 & Hr). cbv zeta in Hr.
    assert (H2 : described w2).
    { destruct Hw2; subst w2; [apply Hset, Hw|].
      apply Hset, Hset, Hw. }
    destruct Hr as [->|[(e & ->)|(e & [a|] & ->)]].
    + exact H2.
    + destruct H2 as [H3 H4]. split; assumption.
    + rewrite construct_some. apply described_bound_to.
    + rewrite construct_none. apply described_unassociated.
  - apply Hro, readonly_final.
  - apply Hro, readonly_SCTP_ASSOCINFO.
  - rewrite default_send_param_unfold. destruct Hw as [H1 H2].
    split; assumption.
  - apply Hro, readonly_SCTP_PEER_ADDR_PARAMS.
  - exact Hw.
  - apply Hro, readonly_write.
  - apply Hro, readonly_destroy.
  - destruct Hw as [H1 H2]. split; assumption.
  - destruct Hw as [H1 H2]. split; assumption.
  - destruct Hw as [H1 H2]. split; assumption.
  - unfold endpoint_emits.
    apply (call_listeners_invariant described); [|exact Hw].
    intros h w' Hw'. apply described_filter, Hw'.
  - apply Hro, readonly_association_emits.
Qed.

Lemma reachable_described w : reachable w -> described w.
Proof.
  induction 1 as [options|env op w _ IH];
    [apply described_new | apply step_described, IH].
Qed.

(** X13.  [address()] changes nothing and calls nothing; it answers with
    family ['IPv4'] always and, as port and address, with the local port and
    address of the endpoint the socket holds; before any endpoint is held,
    both are [undefined]. *)
Theorem address_reports_endpoint (w : World) :
  reachable w ->
  let r := address w in
  state_of r = w /\ trace_of r = [] /\
  exists m,
    outcome_of r = Normal (JObj m) /\
    m !! "family"%string = Some (JStr "IPv4") /\
    m !! "port"%string =
      Some (match _endpoint (socket w) with
            | Some e => Endpoint.localPort e
            | None => JUndefined
            end) /\
    m !! "address"%string =
      Some (match _endpoint (socket w) with
            | Some e => Endpoint.localAddress e
            | None => JUndefined
            end).
Proof.
  intros Hr. apply reachable_described in Hr. destruct Hr as [Hl _].
  cbv zeta. unfold address. mstep. split; [reflexivity|]. split; [reflexivity|].
  eexists. split; [reflexivity|].
  destruct (_endpoint (socket w)) as [e|]; destruct Hl as (<- & <-);
    repeat split; simplify_map_eq; reflexivity.
Qed.

Lemma address_reports_endpoint_witness :
  reachable sample_bound /\
  exists m,
    outcome_of (address sample_bound) = Normal (JObj m) /\
    m !! "port"%string = Some (JNum 6000) /\
    m !! "address"%string = Some (JStr "0.0.0.0").
Proof.
  split; [exact reachable_sample_bound|].
  pose proof (address_reports_endpoint sample_bound reachable_sample_bound) as H.
  cbv zeta in H. destruct H as (_ & _ & m & Hm & _ & Hp & Ha).
  exists m. split; [exact Hm|]. split; [exact Hp | exact Ha].
Defined.

(** X14.  The remote side the socket reports is that of the association it
    is bound to: whenever a socket is bound, [remotePort] and
    [remoteAddress] are the bound association's and [remoteFamily] is
    ['IPv4'], also after the passive filter has bound it again to another
    association, and the socket holds an endpoint. *)
Theorem remote_identity_matches (w : World) (a : Association.t) :
  reachable w ->
  _association (socket w) = Some a ->
  remotePort (socket w) = JNum (Association.remotePort a) /\
  remoteAddress (socket w) = JStr (Association.remoteAddress a) /\
  remoteFamily (socket w) = JStr "IPv4" /\
  is_Some (_endpoint (socket w)).
Proof.
  intros Hr Ha. apply reachable_described in Hr. destruct Hr as [_ H].
  rewrite Ha in H. exact H.
Qed.

Lemma remote_identity_matches_witness :
  reachable sample_bound /\
  _association (socket sample_bound) = Some sample_peer /\
  remotePort (socket sample_bound) = JNum 5000 /\
  remoteAddress (socket sample_bound) = JStr "10.0.0.2".
Proof.
  split; [exact reachable_sample_bound|]. split; [reflexivity|].
  pose proof (remote_identity_matches sample_bound sample_peer
                reachable_sample_bound eq_refl) as (H1 & H2 & _).
  split; [exact H1 | exact H2].
Defined.

(** ** The default send parameters of a new socket *)

Lemma step_keeps_sndrcvinfo env op w :
  (forall o, op <> Call_SCTP_DEFAULT_SEND_PARAM o) ->
  sctp_sndrcvinfo (socket (state_of (step env op w))) =
  sctp_sndrcvinfo (socket w).
Proof.
  intros Hop.
  assert (Hro : forall m : M unit, readonly m ->
            sctp_sndrcvinfo (socket (state_of (m w))) =
            sctp_sndrcvinfo (socket w))
    by (intros m Hm; rewrite Hm; reflexivity).
  destruct op; cbn [step].
  - apply Hro, readonly_bind; [apply readonly_address|].
    intros ?; apply readonly_ret.
  - destruct (p2p (socket w)) eqn:Hp;
      [rewrite connect_again by exact Hp; reflexivity|].
    destruct (connect_state env options connectListener w Hp)
      as (w2 & Hw2 & Hr). cbv zeta in Hr.
    assert (H2 : sctp_sndrcvinfo (socket w2) = sctp_sndrcvinfo (socket w))
      by (destruct Hw2; subst w2; reflexivity).
    destruct Hr as [->|[(e & ->)|(e & [a|] & ->)]]; exact H2.
  - apply Hro, readonly_final.
  - apply Hro, readonly_SCTP_ASSOCINFO.
  - exfalso. eapply Hop. reflexivity.
  - apply Hro, readonly_SCTP_PEER_ADDR_PARAMS.
  - reflexivity.
  - apply Hro, readonly_write.
  - apply Hro, readonly_destroy.
  - reflexivity.
  - reflexivity.
  - reflexivity.
  - unfold endpoint_emits.
    apply (call_listeners_invariant (fun w' =>
      sctp_sndrcvinfo (socket w') = sctp_sndrcvinfo (socket w)));
      [|reflexivity].
    intros h w' Hw'. rewrite filter_unfold.
    destruct (peer_matches _ _); exact Hw'.
  - apply Hro, readonly_association_emits.
Qed.

(** X16.  The protocol given to the constructor is the default of every
    send until the application changes the defaults: as long as
    [SCTP_DEFAULT_SEND_PARAM] has not been called, the default send
    parameters are exactly [{protocol: options.protocol}] (with [undefined]
    for a socket created without options or without a protocol), and a write
    on the bound socket sends the chunk with them. *)
Theorem constructor_protocol_is_default
  (options : jsval) (ops : list (Env * Op)) (chunk encoding callback : jsval) :
  Forall (fun eo => forall o, eo.2 <> Call_SCTP_DEFAULT_SEND_PARAM o) ops ->
  let w := (run ops (new_Socket options).1).1 in
  let protocol :=
    default JUndefined
      (get_prop (if truthy options then options else JObj ∅) "protocol") in
  sctp_sndrcvinfo (socket w) = {[ "protocol"%string := protocol ]} /\
  (forall a, _association (socket w) = Some a ->
     sends (trace_of (_write chunk encoding callback w)) =
     [(a, chunk, {[ "protocol"%string := protocol ]}, callback)]).
Proof.
  intros Hops. cbv zeta.
  assert (Hinfo : sctp_sndrcvinfo (socket (run ops (new_Socket options).1).1) =
                  sctp_sndrcvinfo (socket (new_Socket options).1)).
  { generalize (new_Socket options).1. induction Hops as [|[env op] rest Hop _ IH];
      intros w; [reflexivity|].
    rewrite run_cons. cbn [fst]. rewrite IH.
    apply step_keeps_sndrcvinfo, Hop. }
  split; [rewrite Hinfo; reflexivity|].
  intros a Ha. rewrite write_unfold, Ha. cbn [trace_of fst snd].
  rewrite sends_app. quiet_logs. rewrite Hinfo. reflexivity.
Qed.

Lemma constructor_protocol_is_default_witness :
  Forall (fun eo : Env * Op =>
            forall o, eo.2 <> Call_SCTP_DEFAULT_SEND_PARAM o)
    [(sample_env, Call_connect active_options JUndefined)] /\
  sends (trace_of (_write (JStr "X") JUndefined (JFun 0)
    (run [(sample_env, Call_connect active_options JUndefined)]
         (new_Socket (JObj {[ "protocol" := JNum 46 ]})).1).1)) =
  [(sample_peer, JStr "X", {[ "protocol" := JNum 46 ]}, JFun 0)].
Proof.
  assert (H : Forall (fun eo : Env * Op =>
                        forall o, eo.2 <> Call_SCTP_DEFAULT_SEND_PARAM o)
                [(sample_env, Call_connect active_options JUndefined)])
    by (repeat constructor; discriminate).
  split; [exact H|].
  pose proof (constructor_protocol_is_default
    (JObj {[ "protocol" := JNum 46 ]}) _ (JStr "X") JUndefined (JFun 0) H)
    as [_ Hw].
  rewrite (Hw sample_peer) by (vm_compute; reflexivity).
  vm_compute. reflexivity.
Defined.

(** ** Listeners are never removed *)

Lemma step_keeps_handlers env op w h :
  In h (association_handlers w) ->
  In h (association_handlers (state_of (step env op w))).
Proof.
  intros Hin.
  assert (Hro : forall m : M unit, readonly m ->
            In h (association_handlers (state_of (m w))))
    by (intros m Hm; rewrite Hm; exact Hin).
  destruct op; cbn [step].
  - apply Hro, readonly_bind; [apply readonly_address|].
    intros ?; apply readonly_ret.
  - destruct (p2p (socket w)) eqn:Hp;
      [rewrite connect_again by exact Hp; exact Hin|].
    destruct (connect_state env options connectListener w Hp)
      as (w2 & Hw2 & Hr). cbv zeta in Hr.
    assert (H2 : In h (association_handlers w2))
      by (destruct Hw2; subst w2; exact Hin).
    destruct Hr as [->|[(e & ->)|(e & [a|] & ->)]]; try exact H2.
    rewrite construct_some. cbn. apply in_or_app. left. exact H2.
  - apply Hro, readonly_final.
  - apply Hro, readonly_SCTP_ASSOCINFO.
  - exact Hin.
  - apply Hro, readonly_SCTP_PEER_ADDR_PARAMS.
  - exact Hin.
  - apply Hro, readonly_write.
  - apply Hro, readonly_destroy.
  - exact Hin.
  - exact Hin.
  - exact Hin.
  - unfold endpoint_emits.
    apply (call_listeners_invariant (fun w' => In h (association_handlers w')));
      [|exact Hin].
    intros e w' Hw'. rewrite filter_unfold.
    destruct (peer_matches _ _); [|exact Hw'].
    cbn. apply in_or_app. left. exact Hw'.
  - apply Hro, readonly_association_emits.
Qed.

Lemma run_keeps_handlers ops w h :
  In h (association_handlers w) -> In h (association_handlers (run ops w).1).
Proof.
  revert w. induction ops as [|[env op] rest IH]; intros w Hin; [exact Hin|].
  rewrite run_cons. cbn [fst]. apply IH, step_keeps_handlers, Hin.
Qed.

(** X17.  The listeners [_construct] puts on an association are never
    removed, whatever happens afterwards (teardown, [_destroy], the socket
    being bound again to another association): an association the socket
    was ever bound to keeps driving it, and when it emits ['SHUTDOWN
    COMPLETE'] the socket emits ['end'] and, in [p2p] mode, destroys the
    endpoint that association was bound with. *)
Theorem listeners_are_never_removed
  (env : Env) (w : World) (a : Association.t) (e : Endpoint.t)
  (ops : list (Env * Op)) :
  In (a, e) (association_handlers w) ->
  let w' := (run ops w).1 in
  let r := association_emits env a SHUTDOWN_COMPLETE w' in
  In (a, e) (association_handlers w') /\
  In ("end"%string, []) (emitted (trace_of r)) /\
  (p2p (socket w') = true -> In e (destroyed_endpoints (trace_of r))).
Proof.
  intros Hin. cbv zeta.
  pose proof (run_keeps_handlers ops w (a, e) Hin) as Hin'.
  split; [exact Hin'|].
  apply registered_listener in Hin'.
  unfold association_emits. cbn [association_listener].
  rewrite (call_listeners_trace _
    (fun h => teardown_trace (socket (run ops w).1) "debug"
                [JStr "socket ended"] "end" h.2))
    by (intros h; apply shutdown_complete_unfold).
  cbn [trace_of fst snd]. rewrite teardown_emitted. split.
  - apply (in_map (fun _ => ("end"%string, [])) _ _ Hin').
  - intros Hp. rewrite teardown_destroyed by exact Hp.
    apply (in_map snd _ _ Hin').
Qed.

Lemma listeners_are_never_removed_witness :
  let bound_first := state_of
    (endpoint_emits sample_env sample_endpoint sample_peer sample_listening) in
  In (sample_peer, sample_endpoint) (association_handlers bound_first) /\
  _association (socket
    (run [(sample_env, Endpoint_emits sample_endpoint sample_peer_again)]
         bound_first).1) = Some sample_peer_again /\
  In ("end"%string, [])
    (emitted (trace_of
       (association_emits sample_env sample_peer SHUTDOWN_COMPLETE
          (run [(sample_env, Endpoint_emits sample_endpoint sample_peer_again)]
               bound_first).1))).
Proof.
  cbv zeta.
  assert (Hin : In (sample_peer, sample_endpoint)
    (association_handlers (state_of
       (endpoint_emits sample_env sample_endpoint sample_peer sample_listening))))
    by (left; reflexivity).
  split; [exact Hin|]. split; [reflexivity|].
  exact (proj1 (proj2 (listeners_are_never_removed sample_env _ sample_peer
    sample_endpoint
    [(sample_env, Endpoint_emits sample_endpoint sample_peer_again)] Hin))).
Defined.

(** ** Data arrival *)

Lemma receives_app t1 t2 : receives (t1 ++ t2) = receives t1 ++ receives t2.
Proof. apply omap_app. Qed.

Lemma pushed_app t1 t2 : pushed (t1 ++ t2) = pushed t1 ++ pushed t2.
Proof. apply omap_app. Qed.

Lemma data_arrive_unfold env a stream_id w :
  on_DATA_ARRIVE env a stream_id w =
  (w,
   Association_RECEIVE a stream_id ::
   (if truthy (RECEIVE env a stream_id)
    then log_trace (socket w) "debug"
           [JStr "< DATA ARRIVE"; length_of (RECEIVE env a stream_id);
            RECEIVE env a stream_id] ++
         [Push (RECEIVE env a stream_id)]
    else []),
   Normal tt).
Proof.
  unfold on_DATA_ARRIVE, Association_RECEIVE_call, push. mstep.
  destruct (truthy (RECEIVE env a stream_id)); mstep; reflexivity.
Qed.

(** X19.  On ['DATA ARRIVE'] with a stream identifier, a socket with one
    set of listeners on the association asks the association once for that
    stream's message; a message that is there is pushed, whole and once, and
    an answer that is not a message ([null], [undefined], the empty string)
    is dropped without a push and without an error; in both cases nothing is
    emitted and the store is unchanged. *)
Theorem data_arrival_pushes_message
  (env : Env) (w : World) (a : Association.t) (e : Endpoint.t)
  (stream_id : jsval) :
  handlers_of_association a w = [(a, e)] ->
  let r := association_emits env a (DATA_ARRIVE stream_id) w in
  let message := RECEIVE env a stream_id in
  state_of r = w /\ outcome_of r = Normal tt /\
  receives (trace_of r) = [(a, stream_id)] /\
  pushed (trace_of r) = (if truthy message then [message] else []) /\
  emitted (trace_of r) = [].
Proof.
  intros Hh. cbv zeta. unfold association_emits. rewrite Hh.
  cbn [call_listeners association_listener fst snd].
  rewrite bind_unfold, data_arrive_unfold.
  cbn [state_of trace_of outcome_of fst snd ret].
  rewrite app_nil_r.
  destruct (truthy (RECEIVE env a stream_id));
    cbn [receives pushed emitted omap list_omap];
    rewrite ?receives_app, ?pushed_app, ?emitted_app; quiet_logs;
    repeat split.
Qed.

Lemma data_arrival_pushes_message_witness :
  handlers_of_association sample_peer sample_bound =
    [(sample_peer, sample_endpoint)] /\
  pushed (trace_of (association_emits receiving_env sample_peer
                      (DATA_ARRIVE (JNum 0)) sample_bound)) =
    [JBuf [Byte.x61; Byte.x62]] /\
  pushed (trace_of (association_emits sample_env sample_peer
                      (DATA_ARRIVE (JNum 0)) sample_bound)) = [].
Proof.
  split; [reflexivity|]. split.
  - exact (proj1 (proj2 (proj2 (proj2 (data_arrival_pushes_message
      receiving_env sample_bound sample_peer sample_endpoint (JNum 0)
      eq_refl))))).
  - exact (proj1 (proj2 (proj2 (proj2 (data_arrival_pushes_message
      sample_env sample_bound sample_peer sample_endpoint (JNum 0)
      eq_refl))))).
Defined.

(** ** The expected peer *)

Lemma step_keeps_expected_peer env op w :
  (forall v, op <> Assign_port v) -> (forall v, op <> Assign_host v) ->
  port (socket (state_of (step env op w))) = port (socket w) /\
  host (socket (state_of (step env op w))) = host (socket w).
Proof.
  intros Hp Hh.
  assert (Hro : forall m : M unit, readonly m ->
            port (socket (state_of (m w))) = port (socket w) /\
            host (socket (state_of (m w))) = host (socket w))
    by (intros m Hm; rewrite Hm; split; reflexivity).
  destruct op; cbn [step].
  - apply Hro, readonly_bind; [apply readonly_address|].
    intros ?; apply readonly_ret.
  - destruct (p2p (socket w)) eqn:Hp2;
      [rewrite connect_again by exact Hp2; split; reflexivity|].
    destruct (connect_state env options connectListener w Hp2)
      as (w2 & Hw2 & Hr). cbv zeta in Hr.
    assert (H2 : port (socket w2) = port (socket w) /\
                 host (socket w2) = host (socket w))
      by (destruct Hw2; subst w2; split; reflexivity).
    destruct Hr as [->|[(e & ->)|(e & [a|] & ->)]]; exact H2.
  - apply Hro, readonly_final.
  - apply Hro, readonly_SCTP_ASSOCINFO.
  - split; reflexivity.
  - apply Hro, readonly_SCTP_PEER_ADDR_PARAMS.
  - split; reflexivity.
  - apply Hro, readonly_write.
  - apply Hro, readonly_destroy.
  - split; reflexivity.
  - exfalso. eapply Hp. reflexivity.
  - exfalso. eapply Hh. reflexivity.
  - unfold endpoint_emits.
    apply (call_listeners_invariant (fun w' =>
      port (socket w') = port (socket w) /\ host (socket w') = host (socket w)));
      [|split; reflexivity].
    intros h w' Hw'. rewrite filter_unfold.
    destruct (peer_matches _ _); exact Hw'.
  - apply Hro, readonly_association_emits.
Qed.

(** X20.  No method assigns the peer that the passive filter expects:
    unless the application itself assigns [port] and [host] on the socket,
    both stay [undefined] whatever options [connect] was given, the filter
    matches no association, and every inbound association leaves the socket
    as it was (it is aborted, never bound). *)
Theorem expected_peer_is_never_assigned
  (options : jsval) (ops : list (Env * Op)) (env : Env)
  (endpoint : Endpoint.t) (a : Association.t) :
  Forall (fun eo => (forall v, eo.2 <> Assign_port v) /\
                    (forall v, eo.2 <> Assign_host v)) ops ->
  let w := (run ops (new_Socket options).1).1 in
  let r := endpoint_emits env endpoint a w in
  port (socket w) = JUndefined /\ host (socket w) = JUndefined /\
  peer_matches (socket w) a = false /\
  state_of r = w /\
  (In endpoint (endpoint_handlers w) -> aborts (trace_of r) = [(a, [])]).
Proof.
  intros Hops. cbv zeta.
  assert (Hpeer :
    port (socket (run ops (new_Socket options).1).1) = JUndefined /\
    host (socket (run ops (new_Socket options).1).1) = JUndefined).
  { assert (H0 : port (socket (new_Socket options).1) = JUndefined /\
                 host (socket (new_Socket options).1) = JUndefined)
      by (split; reflexivity).
    revert H0. generalize (new_Socket options).1.
    induction Hops as [|[env' op] rest [Hp Hh] _ IH]; intros w H0; [exact H0|].
    rewrite run_cons. cbn [fst]. apply IH.
    destruct (step_keeps_expected_peer env' op w Hp Hh) as [-> ->]. exact H0. }
  destruct Hpeer as [Hport Hhost].
  set (w := (run ops (new_Socket options).1).1) in *.
  assert (Hm : peer_matches (socket w) a = false)
    by (unfold peer_matches; rewrite Hport; reflexivity).
  split; [exact Hport|]. split; [exact Hhost|]. split; [exact Hm|]. split.
  - unfold endpoint_emits.
    apply (call_listeners_invariant (fun w' => w' = w)); [|reflexivity].
    intros h w' ->. rewrite filter_unfold, Hm. reflexivity.
  - intros Hin.
    assert (Hc : consistent w)
      by (apply reachable_consistent, reachable_run, reachable_new).
    rewrite (endpoint_emits_filter env endpoint a w Hc Hin), filter_unfold, Hm.
    cbn [trace_of fst snd]. rewrite aborts_app. quiet_logs. reflexivity.
Qed.

Lemma expected_peer_is_never_assigned_witness :
  Forall (fun eo : Env * Op => (forall v, eo.2 <> Assign_port v) /\
                               (forall v, eo.2 <> Assign_host v))
    [(sample_env, Call_connect
        (JObj {[ "port" := JNum 5000; "host" := JStr "10.0.0.2";
                 "listen" := JBool true ]}) JUndefined)] /\
  peer_matches
    (socket (run [(sample_env, Call_connect
        (JObj {[ "port" := JNum 5000; "host" := JStr "10.0.0.2";
                 "listen" := JBool true ]}) JUndefined)]
      (new_Socket JUndefined).1).1) sample_peer = false.
Proof.
  assert (H : Forall (fun eo : Env * Op =>
                        (forall v, eo.2 <> Assign_port v) /\
                        (forall v, eo.2 <> Assign_host v))
    [(sample_env, Call_connect
        (JObj {[ "port" := JNum 5000; "host" := JStr "10.0.0.2";
                 "listen" := JBool true ]}) JUndefined)])
    by (repeat constructor; discriminate).
  split; [exact H|].
  exact (proj1 (proj2 (proj2 (expected_peer_is_never_assigned JUndefined _
    sample_env sample_endpoint sample_peer H)))).
Defined.

(** ** The options of [Endpoint.INITIALIZE] *)

Lemma connect_initializes env fields connectListener w :
  p2p (socket w) = false ->
  let field key := default JUndefined (fields !! key) in
  ToInt32 env (field "port"%string) <> 0 ->
  initializations (trace_of (connect env (JObj fields) connectListener w)) =
  [initOptions env (field "MIS"%string) (field "OS"%string)
     (field "localAddress"%string) (field "localPort"%string)].
Proof.
  intros Hp field Hport. subst field. cbv beta in *.
  rewrite (connect_proceeds env fields connectListener w Hp Hport).
  cbv beta zeta. cbn [trace_of fst snd].
  match goal with
  | |- context [connect_endpoint env ?o ?l ?i ?a ?ep ?w1] =>
      pose proof (connect_endpoint_allocation env fields l i a ep w1) as H
  end.
  cbv zeta in H. destruct H as [H _].
  rewrite !initializations_app, H. quiet_logs. reflexivity.
Qed.

(** X5.  A first [connect] that passes the validation calls
    [Endpoint.INITIALIZE] once, with an object that carries [MIS] and [OS] as
    given; a [localAddress] entry exactly when the option is truthy, holding
    the addresses that pass the IPv4 test, in the caller's order and with
    nothing added (a lone address counts as a list of one, and the entry may
    be the empty list: failing addresses are dropped, not refused); and a
    [localPort] entry exactly when the option is truthy and coerces to a
    non-zero 32-bit integer, holding that integer. *)
Theorem init_options_fields
  (env : Env) (fields : gmap string jsval) (connectListener : jsval)
  (w : World) :
  p2p (socket w) = false ->
  let field key := default JUndefined (fields !! key) in
  ToInt32 env (field "port"%string) <> 0 ->
  let r := connect env (JObj fields) connectListener w in
  let localAddress := field "localAddress"%string in
  let localPort := field "localPort"%string in
  let given :=
    match localAddress with JArr items => items | _ => [localAddress] end in
  exists init,
    initializations (trace_of r) = [init] /\
    init !! "MIS"%string = Some (field "MIS"%string) /\
    init !! "OS"%string = Some (field "OS"%string) /\
    init !! "localAddress"%string =
      (if truthy localAddress
       then Some (JArr (multi env localAddress)) else None) /\
    init !! "localPort"%string =
      (if truthy localPort && negb (ToInt32 env localPort =? 0)
       then Some (JNum (ToInt32 env localPort)) else None) /\
    Forall (fun a => isV4Format env a = true) (multi env localAddress) /\
    sublist (multi env localAddress) given /\
    (forall a, In a given -> isV4Format env a = true ->
               In a (multi env localAddress)).
Proof.
  intros Hp field Hport. cbv zeta.
  eexists. split; [apply (connect_initializes env fields connectListener w Hp Hport)|].
  subst field. cbv beta. unfold initOptions, multi.
  set (la := default JUndefined (fields !! "localAddress"%string)).
  set (lp := default JUndefined (fields !! "localPort"%string)).
  repeat split.
  - destruct (truthy lp && _), (truthy la); simplify_map_eq; reflexivity.
  - destruct (truthy lp && _), (truthy la); simplify_map_eq; reflexivity.
  - destruct (truthy lp && _), (truthy la); simplify_map_eq; reflexivity.
  - destruct (truthy lp && _), (truthy la); simplify_map_eq; reflexivity.
  - apply Forall_forall. intros a Ha. apply list_elem_of_filter in Ha. apply Ha.
  - apply sublist_filter.
  - intros a Ha Hv. apply list_elem_of_In, list_elem_of_filter.
    split; [exact Hv | apply list_elem_of_In, Ha].
Qed.

Lemma init_options_fields_witness :
  p2p (socket fresh) = false /\
  exists init,
    initializations
      (trace_of (connect sample_env
         (JObj {[ "port" := JNum 5000; "localPort" := JFrac 0;
                  "localAddress" := JArr [JStr "10.0.0.1"; JNum 7] ]})
         JUndefined fresh)) = [init] /\
    init !! "localAddress"%string = Some (JArr [JStr "10.0.0.1"]) /\
    init !! "localPort"%string = None.
Proof.
  split; [reflexivity|].
  assert (Hport : ToInt32 sample_env
    (default JUndefined
       (({[ "port" := JNum 5000; "localPort" := JFrac 0;
            "localAddress" := JArr [JStr "10.0.0.1"; JNum 7] ]}
          : gmap string jsval) !! "port"%string)) <> 0)
    by (vm_compute; discriminate).
  pose proof (init_options_fields sample_env _ JUndefined fresh eq_refl Hport)
    as H.
  cbv zeta in H. destruct H as (init & Hi & _ & _ & Ha & Hl & _).
  exists init. split; [exact Hi|]. split.
  - rewrite Ha. vm_compute. reflexivity.
  - rewrite Hl. vm_compute. reflexivity.
Defined.
